(** * vhci_stpbt_bridge: the VHCI <-> stpbt H4 packet bridge

    A shallow embedding of [src/vhci_stpbt_bridge.c]: the packet length
    function [get_packet_len], the two accumulation buffers of [main] with
    their read / extract / memmove cycle, and the [select] loop with its
    exit paths.  What [main] prints on stdout is not modelled;
    everything written to stderr, every [write] and every [close] is
    recorded in a trace.  [print_hex] and [set_nonblocking] are modelled
    on their own. *)

From Stdlib Require Import ZArith List Lia Bool.
From Stdlib Require Import Strings.Byte Strings.String Strings.Ascii.
From Stdlib Require Import DecimalString.
From stdpp Require Import base list.

Import ListNotations.
Local Open Scope Z_scope.

(** ** Constants of the source *)

Definition BUF_SIZE : Z := 4096.

Definition HCI_COMMAND_PKT : Z := 0x01.
Definition HCI_ACLDATA_PKT : Z := 0x02.
Definition HCI_SCODATA_PKT : Z := 0x03.
Definition HCI_EVENT_PKT : Z := 0x04.
Definition HCI_VENDOR_PKT : Z := 0xff.
Definition HCI_VHCI_PKT : Z := 0xff.

(** ** Bytes and buffers

    An [unsigned char] is a [Byte.byte]; [byte_val] is its value after the
    integer promotion of C.  A buffer is a list of bytes and [rd buf i] is
    the promoted value of [buf[i]]. *)

Definition byte_val (b : byte) : Z := Z.of_N (Byte.to_N b).

Definition rd (buf : list byte) (i : nat) : Z := byte_val (nth i buf x00).

(** ** Trace of the observable actions *)

Inductive endpoint := VHCI | STPBT.

Inductive errno := EINTR | EAGAIN | EOTHER (code : Z).

Inductive event :=
| EvUnknownType (tag : Z)
    (* fprintf(stderr, "Unknown packet type: 0x%02x\n", buf[0]) *)
| EvPerror (msg : string)
    (* perror(msg) *)
| EvStderr (msg : string)
    (* fprintf(stderr, msg) *)
| EvPacket (src : endpoint) (internal : bool) (pkt : list byte)
    (* ghost: the packet loop of [src] got past both [break]s with the
       packet buf[0 .. pkt_len) and this value of is_vhci_internal *)
| EvWrite (fd : endpoint) (data : list byte) (ret : Z)
    (* write(fd, buf, pkt_len) was called on these bytes and returned ret *)
| EvClose (fd : endpoint).

(** ** get_packet_len (lines 67-116)

    The result carries the returned [int], the value stored through
    [is_vhci_internal], and what the call printed on stderr. *)

Record pkt_len_result := PktLen {
  pl_ret : Z;
  pl_internal : bool;
  pl_log : list event
}.

Definition get_packet_len (buf : list byte) (len : Z) : pkt_len_result :=
  if len <? 1 then PktLen 0 false []
  else
    let t := rd buf 0 in
    if t =? HCI_COMMAND_PKT then
      if len <? 4 then PktLen 0 false [] else PktLen (4 + rd buf 3) false []
    else if t =? HCI_ACLDATA_PKT then
      if len <? 5 then PktLen 0 false []
      else PktLen (5 + Z.lor (rd buf 3) (Z.shiftl (rd buf 4) 8)) false []
    else if t =? HCI_SCODATA_PKT then
      if len <? 4 then PktLen 0 false [] else PktLen (4 + rd buf 3) false []
    else if t =? HCI_EVENT_PKT then
      if len <? 3 then PktLen 0 false [] else PktLen (3 + rd buf 2) false []
    else if t =? HCI_VHCI_PKT then
      if len <? 2 then PktLen 0 true [] else PktLen len true []
    else PktLen (-1) false [EvUnknownType t].

(** ** The accumulation buffers of main (lines 136-139)

    [vhci_buf] / [vhci_len] and [stpbt_buf] / [stpbt_len] are one [accum]
    each: a [BUF_SIZE]-byte array and the count of valid bytes in it. *)

Record accum := Accum {
  a_buf : list byte;
  a_len : Z
}.

(** The bytes [0, len) of the array: the data waiting to be parsed. *)
Definition pending (a : accum) : list byte := take (Z.to_nat (a_len a)) (a_buf a).

(** [read] stores [data] at [buf + len]. *)
Definition store (buf : list byte) (pos : nat) (data : list byte) : list byte :=
  take pos buf ++ data ++ drop (pos + length data) buf.

(** [memmove(buf, buf + off, n)]. *)
Definition memmove_front (buf : list byte) (off n : nat) : list byte :=
  take n (drop off buf) ++ drop n buf.

(** Lines 239-242 and 272-275: remove the processed packet. *)
Definition remove_packet (a : accum) (pkt_len : Z) : accum :=
  let buf' :=
    if pkt_len <? a_len a
    then memmove_front (a_buf a) (Z.to_nat pkt_len) (Z.to_nat (a_len a - pkt_len))
    else a_buf a in
  Accum buf' (a_len a - pkt_len).

(** ** The environment of one run

    What the kernel answers: whether the two [open]s and the two [fcntl]
    pairs succeed, what each [write] returns (by call number), and, for
    each evaluation of the loop condition, the value of [running], the
    outcome of [select] and the outcome of the [read]s. *)

Inductive select_result :=
| SelectFail (e : errno)                 (* n < 0 *)
| SelectTimeout                          (* n == 0 *)
| SelectReady (vhci_set stpbt_set : bool). (* n > 0, with FD_ISSET of each *)

Inductive read_result :=
| ReadUpTo (k : nat)      (* the kernel hands over at most k queued bytes *)
| ReadFail (e : errno).   (* n < 0 *)

Record tick := Tick {
  t_running : bool;
  t_select : select_result;
  t_vhci_read : read_result;
  t_stpbt_read : read_result
}.

Record env := Env {
  open_vhci_ok : bool;
  open_stpbt_ok : bool;
  nonblock_vhci_ok : bool;
  nonblock_stpbt_ok : bool;
  write_ret : nat -> endpoint -> Z -> Z;
  stack_vhci : list byte;     (* the uninitialised contents of vhci_buf *)
  stack_stpbt : list byte;    (* the uninitialised contents of stpbt_buf *)
  rx_vhci : list byte;        (* the bytes /dev/vhci will deliver, in order *)
  rx_stpbt : list byte;       (* the bytes /dev/stpbt will deliver, in order *)
  script : list tick
}.

(** ** One direction: read, then the packet loop

    A [lane] is what one direction owns: its accumulation buffer and the
    bytes still queued in the kernel on its source endpoint. *)

Record lane := Lane {
  l_acc : accum;
  l_queue : list byte
}.

Definition other (src : endpoint) : endpoint :=
  match src with VHCI => STPBT | STPBT => VHCI end.

Definition write_msg (src : endpoint) : string :=
  match src with VHCI => "write to stpbt" | STPBT => "write to vhci" end.

Definition read_msg (src : endpoint) : string :=
  match src with VHCI => "read from vhci" | STPBT => "read from stpbt" end.

(** The forwarding part of the loop body: lines 225-237 for the VHCI side,
    lines 264-270 for the stpbt side, which has no test of
    [is_vhci_internal].  Returns the number of [write] calls so far and
    the events. *)
Definition forward (e : env) (src : endpoint) (internal : bool)
    (pkt : list byte) (pkt_len : Z) (nw : nat) : nat * list event :=
  match src, internal with
  | VHCI, true => (nw, [])
  | _, _ =>
      let r := write_ret e nw (other src) pkt_len in
      (S nw,
       EvWrite (other src) pkt r ::
       (if r =? pkt_len then [] else [EvPerror (write_msg src)]))
  end.

(** The body of [while (len > 0)] (lines 217-243, 256-276); [None] is a
    [break], together with what was printed before it. *)
Definition packet_body (e : env) (src : endpoint) (a : accum) (nw : nat)
    : list event * option (accum * nat) :=
  let r := get_packet_len (a_buf a) (a_len a) in
  let pkt_len := pl_ret r in
  if pkt_len <=? 0 then (pl_log r, None)
  else if pkt_len >? a_len a then (pl_log r, None)
  else
    let pkt := take (Z.to_nat pkt_len) (a_buf a) in
    let '(nw', evs) := forward e src (pl_internal r) pkt pkt_len nw in
    (pl_log r ++ EvPacket src (pl_internal r) pkt :: evs,
     Some (remove_packet a pkt_len, nw')).

(** The loop itself.  Every turn removes at least one byte, so [len]
    turns are enough; see [packet_loop_fuel]. *)
Fixpoint packet_loop (e : env) (src : endpoint) (fuel : nat) (a : accum)
    (nw : nat) : accum * nat * list event :=
  match fuel with
  | O => (a, nw, [])
  | S fuel' =>
      if a_len a >? 0 then
        match packet_body e src a nw with
        | (evs, None) => (a, nw, evs)
        | (evs, Some (a', nw')) =>
            let '(a'', nw'', evs') := packet_loop e src fuel' a' nw' in
            (a'', nw'', evs ++ evs')
        end
      else (a, nw, [])
  end.

(** Lines 212-214 and 251-253: [read] has put [data] at [buf + len] and
    returned its length, which is added to [len]. *)
Definition receive (a : accum) (data : list byte) : accum :=
  Accum (store (a_buf a) (Z.to_nat (a_len a)) data)
        (a_len a + Z.of_nat (length data)).

(** What [read(fd, buf + len, BUF_SIZE - len)] returns when the kernel
    offers up to [k] of the queued bytes [q]: never more than the count
    asked for. *)
Definition read_data (a : accum) (k : nat) (q : list byte) : list byte :=
  take (Nat.min k (Z.to_nat (BUF_SIZE - a_len a))) q.

(** Lines 211-247 and 250-280, inside the [FD_ISSET] test. *)
Definition pump (e : env) (src : endpoint) (r : read_result) (l : lane)
    (nw : nat) : lane * nat * list event :=
  match r with
  | ReadFail EAGAIN => (l, nw, [])
  | ReadFail _ => (l, nw, [EvPerror (read_msg src)])
  | ReadUpTo k =>
      let a := l_acc l in
      let data := read_data a k (l_queue l) in
      let n := Z.of_nat (length data) in
      if n >? 0 then
        let a1 := receive a data in
        let '(a2, nw', evs) := packet_loop e src (Z.to_nat (a_len a1)) a1 nw in
        (Lane a2 (drop (length data) (l_queue l)), nw', evs)
      else (l, nw, [])
  end.

(** ** The select loop (lines 186-281) *)

Record bridge := Bridge {
  b_vhci : lane;        (* vhci_buf, vhci_len and the input queued on /dev/vhci *)
  b_stpbt : lane;       (* stpbt_buf, stpbt_len and the input queued on /dev/stpbt *)
  b_writes : nat;       (* number of write calls made so far *)
  b_out : list event    (* the trace, oldest event first *)
}.

Inductive outcome :=
| Continue (s : bridge)   (* back to the test of [while (running)] *)
| Exit (s : bridge).      (* the loop is left *)

Definition pump_vhci (e : env) (r : read_result) (s : bridge) : bridge :=
  let '(l, nw, evs) := pump e VHCI r (b_vhci s) (b_writes s) in
  Bridge l (b_stpbt s) nw (b_out s ++ evs).

Definition pump_stpbt (e : env) (r : read_result) (s : bridge) : bridge :=
  let '(l, nw, evs) := pump e STPBT r (b_stpbt s) (b_writes s) in
  Bridge (b_vhci s) l nw (b_out s ++ evs).

Definition log (evs : list event) (s : bridge) : bridge :=
  Bridge (b_vhci s) (b_stpbt s) (b_writes s) (b_out s ++ evs).

Definition iteration (e : env) (t : tick) (s : bridge) : outcome :=
  if negb (t_running t) then Exit s
  else
    match t_select t with
    | SelectFail EINTR => Continue s
    | SelectFail _ => Exit (log [EvPerror "select"] s)
    | SelectTimeout => Continue s
    | SelectReady vhci_set stpbt_set =>
        let s1 := if vhci_set then pump_vhci e (t_vhci_read t) s else s in
        let s2 := if stpbt_set then pump_stpbt e (t_stpbt_read t) s1 else s1 in
        Continue s2
    end.

(** The loop over a finite script of kernel answers: [Continue] when the
    script ends with the loop still running, [Exit] when the loop was
    left. *)
Fixpoint main_loop (e : env) (ts : list tick) (s : bridge) : outcome :=
  match ts with
  | [] => Continue s
  | t :: ts' =>
      match iteration e t s with
      | Exit s' => Exit s'
      | Continue s' => main_loop e ts' s'
      end
  end.

Definition state_of (o : outcome) : bridge :=
  match o with Continue s => s | Exit s => s end.

(** ** main (lines 130-293) *)

(** A [BUF_SIZE]-byte array with arbitrary initial contents. *)
Definition stack_array (junk : list byte) : list byte :=
  take (Z.to_nat BUF_SIZE) (junk ++ repeat x00 (Z.to_nat BUF_SIZE)).

Definition init_bridge (e : env) : bridge :=
  Bridge (Lane (Accum (stack_array (stack_vhci e)) 0) (rx_vhci e))
         (Lane (Accum (stack_array (stack_stpbt e)) 0) (rx_stpbt e))
         0 [].

(** The exit status together with the trace; [None] when the script of
    the environment ends before the process does. *)
Definition main (e : env) : option (Z * list event) :=
  if negb (open_vhci_ok e) then
    Some (1, [EvPerror "Failed to open /dev/vhci";
              EvStderr "Make sure hci_vhci module is loaded"])
  else if negb (open_stpbt_ok e) then
    Some (1, [EvPerror "Failed to open /dev/stpbt";
              EvStderr "Make sure BT function is enabled via WMT";
              EvStderr "And that no other process has the device open";
              EvClose VHCI])
  else if negb (nonblock_vhci_ok e) || negb (nonblock_stpbt_ok e) then
    Some (1, [EvPerror "Failed to set non-blocking mode";
              EvClose STPBT; EvClose VHCI])
  else
    match main_loop e (script e) (init_bridge e) with
    | Continue _ => None
    | Exit s => Some (0, b_out s ++ [EvClose STPBT; EvClose VHCI])
    end.

(** The two ways out of the loop: [running] was found cleared, or
    [select] failed with something other than EINTR. *)
Definition leaves_loop (t : tick) : bool :=
  negb (t_running t) ||
  match t_select t with
  | SelectFail EINTR => false
  | SelectFail _ => true
  | _ => false
  end.

(** Both [open]s and both [set_nonblocking] calls succeeded. *)
Definition started (e : env) : bool :=
  open_vhci_ok e && open_stpbt_ok e && nonblock_vhci_ok e && nonblock_stpbt_ok e.

(** ** print_hex (lines 118-128) *)

(** The digit that [%x] prints for a value below 16. *)
Definition hex_digit (d : Z) : ascii :=
  nth (Z.to_nat d) (list_ascii_of_string "0123456789abcdef") "?"%char.

(** [printf("%02x ", v)] for the value of an unsigned char. *)
Definition hex2 (v : Z) : list ascii :=
  [hex_digit (v / 16); hex_digit (v mod 16); " "%char].

(** [for (i = ...; i < len && i < 32; i++) printf("%02x ", buf[i])],
    entered with the given [i]; the test [i < 32] ends it within 32
    turns. *)
Fixpoint hex_loop (fuel : nat) (i : Z) (buf : list byte) (len : Z) : list ascii :=
  match fuel with
  | O => []
  | S fuel' =>
      if (i <? len) && (i <? 32)
      then hex2 (rd buf (Z.to_nat i)) ++ hex_loop fuel' (i + 1) buf len
      else []
  end.

(** What [print_hex] puts on stdout. *)
Definition print_hex (prefix : string) (buf : list byte) (len : Z) : list ascii :=
  list_ascii_of_string prefix ++
  list_ascii_of_string " (" ++
  list_ascii_of_string (NilZero.string_of_int (Z.to_int len)) ++
  list_ascii_of_string " bytes): " ++
  hex_loop 32 0 buf len ++
  (if len >? 32 then list_ascii_of_string "..." else []) ++
  ["010"%char].

(** ** set_nonblocking (lines 58-64) *)

(** The [fcntl] calls made on the descriptor. *)
Inductive fcntl_call :=
| GetFl                 (* fcntl(fd, F_GETFL, 0) *)
| SetFl (flags : Z).    (* fcntl(fd, F_SETFL, flags) *)

(** [o_nonblock] is the value of [O_NONBLOCK] in <fcntl.h>, [getfl] what
    the F_GETFL call returns, and [setfl] what the F_SETFL call returns
    for the flags it is given.  The result is the returned [int] and the
    calls made. *)
Definition set_nonblocking (o_nonblock : Z) (getfl : Z) (setfl : Z -> Z)
    : Z * list fcntl_call :=
  let flags := getfl in
  if flags <? 0 then (-1, [GetFl])
  else (setfl (Z.lor flags o_nonblock),
        [GetFl; SetFl (Z.lor flags o_nonblock)]).

(** ** Reading a trace *)

Definition packets_of (src : endpoint) (evs : list event) : list (bool * list byte) :=
  flat_map (fun ev =>
    match ev with
    | EvPacket s i p => match s, src with
                        | VHCI, VHCI | STPBT, STPBT => [(i, p)]
                        | _, _ => []
                        end
    | _ => []
    end) evs.

Definition writes_to (fd : endpoint) (evs : list event) : list (list byte) :=
  flat_map (fun ev =>
    match ev with
    | EvWrite d p _ => match d, fd with
                       | VHCI, VHCI | STPBT, STPBT => [p]
                       | _, _ => []
                       end
    | _ => []
    end) evs.

Definition is_error (ev : event) : bool :=
  match ev with
  | EvUnknownType _ | EvPerror _ | EvStderr _ => true
  | _ => false
  end.

Definition errors_of (evs : list event) : list event := List.filter is_error evs.

(** A packet that starts with the vendor tag 0xff. *)
Definition is_vendor (pkt : list byte) : bool := rd pkt 0 =? HCI_VENDOR_PKT.

(** The forwarding policy, read off a trace: what was written to
    /dev/stpbt is, in order, the packets taken from the VHCI side that do
    not start with 0xff, and what was written to /dev/vhci is, in order,
    every packet taken from the stpbt side. *)
Definition policy (tr : list event) : Prop :=
  writes_to STPBT tr =
    List.filter (fun p => negb (is_vendor p)) (map snd (packets_of VHCI tr)) /\
  writes_to VHCI tr = map snd (packets_of STPBT tr).

(** A direction fed by a schedule of reads: the k-th read is offered at
    most [ks !! k] bytes by the kernel. *)
Fixpoint feed (e : env) (src : endpoint) (ks : list nat) (l : lane) (nw : nat)
    : lane * nat * list event :=
  match ks with
  | [] => (l, nw, [])
  | k :: ks' =>
      let '(l1, nw1, evs1) := pump e src (ReadUpTo k) l nw in
      let '(l2, nw2, evs2) := feed e src ks' l1 nw1 in
      (l2, nw2, evs1 ++ evs2)
  end.

(** ** The frame table of the specification *)

Inductive frame_type := Command | ACLData | SCOData | Event | Vendor.

Definition type_of_tag (t : Z) : option frame_type :=
  if t =? 0x01 then Some Command
  else if t =? 0x02 then Some ACLData
  else if t =? 0x03 then Some SCOData
  else if t =? 0x04 then Some Event
  else if t =? 0xff then Some Vendor
  else None.

(** Bytes needed before the length field of a type can be read. *)
Definition min_header (ty : frame_type) : Z :=
  match ty with
  | Command => 4 | ACLData => 5 | SCOData => 4 | Event => 3 | Vendor => 2
  end.

(** The 16-bit little-endian value of two bytes. *)
Definition le16 (lo hi : Z) : Z := lo + 256 * hi.

(** The total frame length column of the table, for the four types with
    a declared length. *)
Definition table_length (ty : frame_type) (buf : list byte) : Z :=
  match ty with
  | Command => 4 + rd buf 3
  | ACLData => 5 + le16 (rd buf 3) (rd buf 4)
  | SCOData => 4 + rd buf 3
  | Event => 3 + rd buf 2
  | Vendor => 0
  end.

(** ** Predicates of the statements *)

(** The array keeps its size and the count of valid bytes stays within
    it. *)
Definition acc_ok (a : accum) : Prop :=
  length (a_buf a) = Z.to_nat BUF_SIZE /\ 0 <= a_len a <= BUF_SIZE.

(** Two traces with the same packets and the same written bytes. *)
Definition same_traffic (t1 t2 : list event) : Prop :=
  forall fd, packets_of fd t1 = packets_of fd t2 /\
             writes_to fd t1 = writes_to fd t2.

(** An accumulator whose first pending byte is not a known tag. *)
Definition stuck (a : accum) : Prop :=
  acc_ok a /\ 1 <= a_len a /\ type_of_tag (rd (a_buf a) 0) = None.

(** A complete frame of one of the four types with a declared length:
    tag, header, and exactly as many payload bytes as the header says. *)
Inductive sized_frame : list byte -> Prop :=
| frame_command (o1 o2 n : byte) (payload : list byte) :
    byte_val n = Z.of_nat (length payload) ->
    sized_frame (x01 :: o1 :: o2 :: n :: payload)
| frame_acl (h1 h2 lo hi : byte) (payload : list byte) :
    le16 (byte_val lo) (byte_val hi) = Z.of_nat (length payload) ->
    sized_frame (x02 :: h1 :: h2 :: lo :: hi :: payload)
| frame_sco (h1 h2 n : byte) (payload : list byte) :
    byte_val n = Z.of_nat (length payload) ->
    sized_frame (x03 :: h1 :: h2 :: n :: payload)
| frame_event (c n : byte) (payload : list byte) :
    byte_val n = Z.of_nat (length payload) ->
    sized_frame (x04 :: c :: n :: payload).

(** A Vendor/Internal frame: tag 0xff, an opcode, an opaque payload. *)
Inductive vendor_frame : list byte -> Prop :=
| frame_vendor (op : byte) (payload : list byte) :
    vendor_frame (xff :: op :: payload).

(** A frame of the specification's data model. *)
Definition spec_frame (f : list byte) : Prop := sized_frame f \/ vendor_frame f.

(** No complete frame is pending: [p] is shorter than the frame it
    starts. *)
Definition partial (p : list byte) (fs : list (list byte)) : Prop :=
  match fs with
  | [] => p = []
  | f :: _ => (length p < length f)%nat
  end.

(** A direction in the middle of the frames [fs]: what is pending and
    what is still queued make up [fs], and the pending bytes stop short
    of the first boundary. *)
Definition in_frames (l : lane) (fs : list (list byte)) : Prop :=
  acc_ok (l_acc l) /\
  Forall sized_frame fs /\
  pending (l_acc l) ++ l_queue l = concat fs /\
  partial (pending (l_acc l)) fs.

(** The schedule [ks] of reads takes everything queued on the source. *)
Definition delivers (e : env) (src : endpoint) (ks : list nat) (l : lane)
    (nw : nat) : Prop :=
  l_queue (fst (fst (feed e src ks l nw))) = [].

(** The pending bytes are a proper start of a frame, or there are
    none. *)
Definition tail_ok (p : list byte) : Prop :=
  p = [] \/
  exists f, sized_frame f /\ take (length p) f = p /\ (length p < length f)%nat.

(** All frames fit the buffer. *)
Definition frames_fit (fs : list (list byte)) : Prop :=
  Forall (fun f => Z.of_nat (length f) <= BUF_SIZE) fs.

(** Both accumulation buffers of a state are within bounds. *)
Definition bridge_ok (s : bridge) : Prop :=
  acc_ok (l_acc (b_vhci s)) /\ acc_ok (l_acc (b_stpbt s)).

(** An extracted packet as it should be: a vendor frame when it was
    marked internal, a complete length-prefixed frame when not, and in
    both cases no longer than the buffer. *)
Definition packet_ok (ip : bool * list byte) : Prop :=
  (if fst ip then vendor_frame (snd ip) else sized_frame (snd ip)) /\
  Z.of_nat (length (snd ip)) <= BUF_SIZE.

Definition sound (tr : list event) : Prop :=
  forall src, Forall packet_ok (packets_of src tr).

(** What an endpoint was given is what was extracted from it, then
    what is pending, then what is still queued. *)
Definition accounted (e : env) (s : bridge) : Prop :=
  rx_vhci e =
    concat (map snd (packets_of VHCI (b_out s))) ++
    pending (l_acc (b_vhci s)) ++ l_queue (b_vhci s) /\
  rx_stpbt e =
    concat (map snd (packets_of STPBT (b_out s))) ++
    pending (l_acc (b_stpbt s)) ++ l_queue (b_stpbt s).

(** The endpoints closed in a trace, in order. *)
Definition closes_of (evs : list event) : list endpoint :=
  flat_map (fun ev => match ev with EvClose fd => [fd] | _ => [] end) evs.

Definition no_close (evs : list event) : Prop := closes_of evs = [].

(** The packet loop would stop at once on this buffer: it is empty, or
    [get_packet_len] asks for more bytes or rejects the tag. *)
Definition settled (a : accum) : Prop :=
  a_len a <= 0 \/
  pl_ret (get_packet_len (a_buf a) (a_len a)) <= 0 \/
  a_len a < pl_ret (get_packet_len (a_buf a) (a_len a)).

(** A buffer that begins with an ACL header announcing more than
    [BUF_SIZE] bytes in all. *)
Definition oversized (a : accum) : Prop :=
  acc_ok a /\ 5 <= a_len a /\
  rd (a_buf a) 0 = HCI_ACLDATA_PKT /\
  BUF_SIZE < 5 + le16 (rd (a_buf a) 3) (rd (a_buf a) 4).

(** Every [write] takes the whole packet. *)
Definition complete_writes (e : env) : Prop :=
  forall n fd c, write_ret e n fd c = c.

Definition lane_of (src : endpoint) (s : bridge) : lane :=
  match src with VHCI => b_vhci s | STPBT => b_stpbt s end.

Definition rx_of (src : endpoint) (e : env) : list byte :=
  match src with VHCI => rx_vhci e | STPBT => rx_stpbt e end.

Definition stack_of (src : endpoint) (e : env) : list byte :=
  match src with VHCI => stack_vhci e | STPBT => stack_stpbt e end.

(** What one direction can see of a turn of the select loop: the
    [running] flag, the outcome of [select] as far as its own descriptor
    goes, and the outcome of its own [read]. *)
Definition view (src : endpoint) (t : tick) : tick :=
  Tick (t_running t)
       (match t_select t, src with
        | SelectReady v _, VHCI => SelectReady v false
        | SelectReady _ w, STPBT => SelectReady false w
        | r, _ => r
        end)
       (match src with VHCI => t_vhci_read t | STPBT => ReadUpTo 0 end)
       (match src with VHCI => ReadUpTo 0 | STPBT => t_stpbt_read t end).

(** Two states that agree on the direction [src]: its buffer and queue,
    the packets extracted from it, the bytes written for it. *)
Definition agree (src : endpoint) (s s' : bridge) : Prop :=
  lane_of src s = lane_of src s' /\
  packets_of src (b_out s) = packets_of src (b_out s') /\
  writes_to (other src) (b_out s) = writes_to (other src) (b_out s').

Definition pump_side (src : endpoint) (e : env) (r : read_result) (s : bridge)
    : bridge :=
  match src with VHCI => pump_vhci e r s | STPBT => pump_stpbt e r s end.

(** The outcome of a turn, without the state. *)
Definition leaves (o : outcome) : bool :=
  match o with Exit _ => true | Continue _ => false end.

(** The number of bytes [print_hex] shows. *)
Definition shown (len : Z) : nat := Z.to_nat (Z.min len 32).

(** ** Concrete inputs *)

(** An environment in which everything succeeds and every [write] is
    complete. *)
Definition quiet_env (rxv rxs : list byte) (ts : list tick) : env :=
  Env true true true true (fun _ _ n => n) [] [] rxv rxs ts.

(** The same with every [write] one byte short. *)
Definition short_env (rxv rxs : list byte) (ts : list tick) : env :=
  Env true true true true (fun _ _ n => n - 1) [] [] rxv rxs ts.

(** Both endpoints readable; the kernel offers [kv] and [ks] bytes. *)
Definition ready (kv ks : nat) : tick :=
  Tick true (SelectReady true true) (ReadUpTo kv) (ReadUpTo ks).

(** The signal handler has cleared [running]. *)
Definition cancelled : tick := Tick false SelectTimeout (ReadUpTo 0) (ReadUpTo 0).

(** Command Complete event, 4 parameter bytes. *)
Definition event_frame : list byte := [x04; x0e; x04; x01; x0c; x20; x00].

(** A command with 2 parameter bytes. *)
Definition command_frame : list byte := [x01; x0c; x20; x02; xaa; xbb].

(** A vendor packet: tag, opcode, two more bytes. *)
Definition vendor_bytes : list byte := [xff; x01; x02; x03].

(** An ACL header that announces 65535 bytes, and 5000 of them. *)
Definition flood : list byte := [x02; x00; x00; xff; xff] ++ repeat x00 5000.

Definition empty_acc : accum := Accum (stack_array []) 0.

Definition stuck_acc : accum := receive empty_acc [x05].

(** * Properties *)

(** ** Bytes *)

Lemma byte_val_range (b : byte) : 0 <= byte_val b < 256.
Proof.
  unfold byte_val. pose proof (Byte.to_N_bounded b). lia.
Qed.

Lemma rd_range (buf : list byte) (i : nat) : 0 <= rd buf i < 256.
Proof. apply byte_val_range. Qed.

Lemma lor_shiftl_8 (lo hi : Z) :
  0 <= lo < 256 -> 0 <= hi -> Z.lor lo (Z.shiftl hi 8) = le16 lo hi.
Proof.
  intros Hlo Hhi. unfold le16.
  rewrite Z.shiftl_mul_pow2 by lia.
  replace (256 * hi) with (hi * 2 ^ 8) by lia.
  symmetry. apply Z.add_nocarry_lor.
  apply Z.bits_inj'. intros n Hn.
  rewrite Z.land_spec, Z.bits_0.
  destruct (Z.lt_ge_cases n 8) as [Hlt | Hge].
  - rewrite Z.mul_pow2_bits_low by lia. apply andb_false_r.
  - replace lo with (lo mod 2 ^ 8) by (apply Z.mod_small; lia).
    rewrite Z.mod_pow2_bits_high by lia. reflexivity.
Qed.

Lemma rd_take (buf : list byte) (n i : nat) :
  (i < n)%nat -> rd (take n buf) i = rd buf i.
Proof.
  intros Hi. unfold rd. f_equal.
  revert n i Hi. induction buf as [| b buf IH]; intros n i Hi.
  - rewrite take_nil. reflexivity.
  - destruct n as [| n]; [lia |]. destruct i as [| i]; [reflexivity |].
    simpl. apply IH. lia.
Qed.

(** ** get_packet_len *)

(** The function reads only below [len], so it sees the array through
    its pending part alone. *)
Lemma get_packet_len_take (buf : list byte) (len : Z) :
  get_packet_len (take (Z.to_nat len) buf) len = get_packet_len buf len.
Proof.
  unfold get_packet_len.
  destruct (len <? 1) eqn:H1; [reflexivity |].
  apply Z.ltb_ge in H1.
  rewrite (rd_take buf (Z.to_nat len) 0) by lia.
  repeat match goal with
  | |- context [if ?c then _ else _] => destruct c eqn:?; try reflexivity
  end;
  repeat match goal with
  | H : (_ <? _) = false |- _ => apply Z.ltb_ge in H
  end;
  rewrite ?(rd_take buf (Z.to_nat len) 2), ?(rd_take buf (Z.to_nat len) 3),
          ?(rd_take buf (Z.to_nat len) 4) by lia; reflexivity.
Qed.

Lemma get_packet_len_bounds (buf : list byte) (len : Z) :
  0 <= len -> -1 <= pl_ret (get_packet_len buf len) <= Z.max len 65540.
Proof.
  intros Hlen. unfold get_packet_len.
  pose proof (rd_range buf 2). pose proof (rd_range buf 3).
  pose proof (rd_range buf 4).
  repeat match goal with
  | |- context [if ?c then _ else _] => destruct c eqn:?
  end; simpl; try lia.
  rewrite lor_shiftl_8 by lia. unfold le16. lia.
Qed.

Lemma get_packet_len_known (buf : list byte) (len : Z) (ty : frame_type) :
  type_of_tag (rd buf 0) = Some ty ->
  ty <> Vendor ->
  min_header ty <= len ->
  get_packet_len buf len = PktLen (table_length ty buf) false [].
Proof.
  unfold type_of_tag, get_packet_len, HCI_COMMAND_PKT, HCI_ACLDATA_PKT,
    HCI_SCODATA_PKT, HCI_EVENT_PKT, HCI_VHCI_PKT.
  intros Hty Hnv Hlen.
  pose proof (rd_range buf 3). pose proof (rd_range buf 4).
  assert ((len <? 1) = false) as -> by (destruct ty; simpl in Hlen; lia).
  destruct (rd buf 0 =? 1).
  { injection Hty as <-. simpl in *.
    assert ((len <? 4) = false) as -> by lia. reflexivity. }
  destruct (rd buf 0 =? 2).
  { injection Hty as <-. simpl in *.
    assert ((len <? 5) = false) as -> by lia.
    rewrite lor_shiftl_8 by lia. reflexivity. }
  destruct (rd buf 0 =? 3).
  { injection Hty as <-. simpl in *.
    assert ((len <? 4) = false) as -> by lia. reflexivity. }
  destruct (rd buf 0 =? 4).
  { injection Hty as <-. simpl in *.
    assert ((len <? 3) = false) as -> by lia. reflexivity. }
  destruct (rd buf 0 =? 255); [injection Hty as <-; congruence | discriminate].
Qed.

(** Below the minimum header of its type a buffer gives 0, silently. *)
Lemma get_packet_len_short (buf : list byte) (len : Z) (ty : frame_type) :
  type_of_tag (rd buf 0) = Some ty ->
  len < min_header ty ->
  pl_ret (get_packet_len buf len) = 0 /\ pl_log (get_packet_len buf len) = [].
Proof.
  unfold type_of_tag, get_packet_len, HCI_COMMAND_PKT, HCI_ACLDATA_PKT,
    HCI_SCODATA_PKT, HCI_EVENT_PKT, HCI_VHCI_PKT.
  intros Hty Hlen.
  destruct (len <? 1); [split; reflexivity |].
  destruct (rd buf 0 =? 1).
  { injection Hty as <-. simpl in *.
    assert ((len <? 4) = true) as -> by lia. split; reflexivity. }
  destruct (rd buf 0 =? 2).
  { injection Hty as <-. simpl in *.
    assert ((len <? 5) = true) as -> by lia. split; reflexivity. }
  destruct (rd buf 0 =? 3).
  { injection Hty as <-. simpl in *.
    assert ((len <? 4) = true) as -> by lia. split; reflexivity. }
  destruct (rd buf 0 =? 4).
  { injection Hty as <-. simpl in *.
    assert ((len <? 3) = true) as -> by lia. split; reflexivity. }
  destruct (rd buf 0 =? 255); [| discriminate].
  injection Hty as <-. simpl in *.
  assert ((len <? 2) = true) as -> by lia. split; reflexivity.
Qed.

(** C2: for a buffer whose first byte is the tag of a Command, ACL-Data,
    SCO-Data or Event packet and whose length reaches the minimum header
    of that type, [get_packet_len] returns the total length of the
    specification's table: 4 + byte 3, 5 + the little-endian 16-bit value
    of bytes 3 and 4, 4 + byte 3, and 3 + byte 2. *)
Theorem get_packet_len_table (buf : list byte) (len : Z) (ty : frame_type) :
  type_of_tag (rd buf 0) = Some ty ->
  ty <> Vendor ->
  min_header ty <= len ->
  get_packet_len buf len = PktLen (table_length ty buf) false [].
Proof. apply get_packet_len_known. Qed.

(** The Command example of the specification: header 01 0c 20 02 and two
    parameter bytes resolve to 6. *)
Lemma get_packet_len_table_witness :
  get_packet_len [x01; x0c; x20; x02; xaa; xbb] 6 = PktLen 6 false [].
Proof.
  apply (get_packet_len_table [x01; x0c; x20; x02; xaa; xbb] 6 Command);
    [reflexivity | discriminate | simpl; lia].
Defined.

(** ** The accumulation buffer *)

Lemma pending_length (a : accum) :
  acc_ok a -> length (pending a) = Z.to_nat (a_len a).
Proof.
  intros [Hb Hl]. unfold pending. rewrite length_take. lia.
Qed.

Lemma receive_ok (a : accum) (data : list byte) :
  acc_ok a ->
  Z.of_nat (length data) <= BUF_SIZE - a_len a ->
  acc_ok (receive a data) /\ pending (receive a data) = pending a ++ data.
Proof.
  intros [Hb Hl] Hd. unfold receive, acc_ok, pending, store; simpl.
  set (n := Z.to_nat (a_len a)).
  assert (Hn : (n <= length (a_buf a))%nat) by lia.
  assert (Hlt : length (take n (a_buf a)) = n) by (rewrite length_take; lia).
  repeat split; try lia.
  - rewrite !length_app, Hlt, length_drop. lia.
  - replace (Z.to_nat (a_len a + Z.of_nat (length data)))
      with (length (take n (a_buf a)) + length data)%nat by lia.
    rewrite take_app_add, take_app_length. reflexivity.
Qed.

Lemma remove_packet_ok (a : accum) (p : Z) :
  acc_ok a ->
  0 < p <= a_len a ->
  acc_ok (remove_packet a p) /\
  a_len (remove_packet a p) = a_len a - p /\
  pending (remove_packet a p) = drop (Z.to_nat p) (pending a).
Proof.
  intros [Hb Hl] Hp. unfold remove_packet, acc_ok, pending; simpl.
  destruct (p <? a_len a) eqn:Hlt.
  - apply Z.ltb_lt in Hlt. unfold memmove_front.
    set (k := Z.to_nat (a_len a - p)).
    assert (Hk : length (take k (drop (Z.to_nat p) (a_buf a))) = k)
      by (rewrite length_take, length_drop; lia).
    repeat split; try lia.
    + rewrite length_app, Hk, length_drop. lia.
    + rewrite take_app_le by lia. rewrite take_take.
      replace (Nat.min k k) with k by lia.
      rewrite take_drop_commute. f_equal. f_equal. lia.
  - apply Z.ltb_ge in Hlt. assert (p = a_len a) as -> by lia.
    repeat split; try lia.
    rewrite Z.sub_diag. simpl. rewrite take_0.
    symmetry. apply drop_ge. rewrite length_take. lia.
Qed.

(** ** The packet loop *)

Lemma packets_of_app (src : endpoint) (t1 t2 : list event) :
  packets_of src (t1 ++ t2) = packets_of src t1 ++ packets_of src t2.
Proof. apply flat_map_app. Qed.

Lemma writes_to_app (fd : endpoint) (t1 t2 : list event) :
  writes_to fd (t1 ++ t2) = writes_to fd t1 ++ writes_to fd t2.
Proof. apply flat_map_app. Qed.

Lemma packets_of_packet (src : endpoint) (i : bool) (pkt : list byte)
    (evs : list event) :
  packets_of src (EvPacket src i pkt :: evs) = (i, pkt) :: packets_of src evs.
Proof. destruct src; reflexivity. Qed.

Lemma forward_packet (e : env) (src : endpoint) (i : bool) (pkt : list byte)
    (pkt_len : Z) (nw : nat) :
  packets_of src (snd (forward e src i pkt pkt_len nw)) = [].
Proof.
  unfold forward. destruct src, i; simpl;
    try destruct (write_ret e nw _ pkt_len =? pkt_len); reflexivity.
Qed.

(** What a turn of the loop does, read off the pending bytes. *)
Lemma packet_body_some (e : env) (src : endpoint) (a a' : accum)
    (nw nw' : nat) (evs : list event) :
  acc_ok a ->
  packet_body e src a nw = (evs, Some (a', nw')) ->
  let r := get_packet_len (pending a) (a_len a) in
  0 < pl_ret r <= a_len a /\
  a' = remove_packet a (pl_ret r) /\
  evs = pl_log r ++
        EvPacket src (pl_internal r) (take (Z.to_nat (pl_ret r)) (pending a)) ::
        snd (forward e src (pl_internal r)
               (take (Z.to_nat (pl_ret r)) (pending a)) (pl_ret r) nw) /\
  nw' = fst (forward e src (pl_internal r)
               (take (Z.to_nat (pl_ret r)) (pending a)) (pl_ret r) nw).
Proof.
  intros Hok. unfold packet_body, pending.
  rewrite get_packet_len_take.
  destruct (pl_ret _ <=? 0) eqn:H0; [discriminate |].
  destruct (pl_ret _ >? a_len a) eqn:H1; [discriminate |].
  apply Z.leb_gt in H0. rewrite Z.gtb_ltb in H1. apply Z.ltb_ge in H1.
  rewrite take_take.
  replace (Nat.min (Z.to_nat (pl_ret (get_packet_len (a_buf a) (a_len a))))
                   (Z.to_nat (a_len a)))
    with (Z.to_nat (pl_ret (get_packet_len (a_buf a) (a_len a)))) by lia.
  destruct (forward _ _ _ _ _ _) as [nw1 evs1] eqn:Hf.
  intros [= <- <- <-]. simpl. auto.
Qed.

Lemma packet_body_none (e : env) (src : endpoint) (a : accum) (nw : nat) :
  let r := get_packet_len (pending a) (a_len a) in
  pl_ret r <= 0 \/ a_len a < pl_ret r ->
  packet_body e src a nw = (pl_log r, None).
Proof.
  unfold packet_body, pending. rewrite get_packet_len_take.
  intros [H | H].
  - apply Z.leb_le in H. rewrite H. reflexivity.
  - destruct (pl_ret _ <=? 0); [reflexivity |].
    apply Z.ltb_lt in H. rewrite Z.gtb_ltb, H. reflexivity.
Qed.

(** The loop needs no more turns than there are pending bytes. *)
Lemma packet_loop_fuel (e : env) (src : endpoint) (f1 f2 : nat) :
  forall (a : accum) (nw : nat),
  (Z.to_nat (a_len a) <= f1)%nat ->
  (Z.to_nat (a_len a) <= f2)%nat ->
  packet_loop e src f1 a nw = packet_loop e src f2 a nw.
Proof.
  revert f2. induction f1 as [| f1 IH]; intros f2 a nw H1 H2.
  - destruct f2 as [| f2]; [reflexivity |]. simpl.
    assert ((a_len a >? 0) = false) as -> by lia. reflexivity.
  - destruct f2 as [| f2]; simpl.
    + assert ((a_len a >? 0) = false) as -> by lia. reflexivity.
    + destruct (a_len a >? 0) eqn:Hpos; [| reflexivity].
      destruct (packet_body e src a nw) as [evs [[a' nw'] |]] eqn:Hb;
        [| reflexivity].
      assert (Hlen : a_len a' < a_len a).
      { unfold packet_body in Hb.
        destruct (pl_ret _ <=? 0) eqn:H0; [discriminate |].
        destruct (pl_ret _ >? a_len a); [discriminate |].
        destruct (forward _ _ _ _ _ _). injection Hb as _ <- _.
        simpl. lia. }
      rewrite (IH f2 a' nw') by lia. reflexivity.
Qed.

Lemma packet_loop_ok (e : env) (src : endpoint) (fuel : nat) :
  forall (a : accum) (nw : nat),
  acc_ok a -> acc_ok (fst (fst (packet_loop e src fuel a nw))).
Proof.
  induction fuel as [| fuel IH]; intros a nw Hok; simpl; [exact Hok |].
  destruct (a_len a >? 0); [| exact Hok].
  destruct (packet_body e src a nw) as [evs [[a' nw'] |]] eqn:Hb;
    [| exact Hok].
  destruct (packet_body_some e src a a' nw nw' evs Hok Hb) as (Hp & -> & _).
  specialize (IH (remove_packet a (pl_ret (get_packet_len (pending a) (a_len a)))) nw').
  destruct (packet_loop _ _ _ _ _) as [[a2 nw2] evs2]. simpl in *.
  apply IH. apply remove_packet_ok; assumption.
Qed.

Lemma read_data_fits (a : accum) (k : nat) (q : list byte) :
  acc_ok a -> Z.of_nat (length (read_data a k q)) <= BUF_SIZE - a_len a.
Proof.
  intros [_ Hl]. unfold read_data. rewrite length_take. lia.
Qed.

Lemma pump_read (e : env) (src : endpoint) (k : nat) (l : lane) (nw : nat) :
  pump e src (ReadUpTo k) l nw =
  let data := read_data (l_acc l) k (l_queue l) in
  match data with
  | [] => (l, nw, [])
  | _ :: _ =>
      let a1 := receive (l_acc l) data in
      let '(a2, nw', evs) := packet_loop e src (Z.to_nat (a_len a1)) a1 nw in
      (Lane a2 (drop (length data) (l_queue l)), nw', evs)
  end.
Proof.
  unfold pump, read_data.
  destruct (take _ (l_queue l)) as [| b data]; reflexivity.
Qed.

Lemma pump_ok (e : env) (src : endpoint) (r : read_result) (l : lane) (nw : nat) :
  acc_ok (l_acc l) -> acc_ok (l_acc (fst (fst (pump e src r l nw)))).
Proof.
  intros Hok. destruct r as [k | er].
  - rewrite pump_read.
    pose proof (read_data_fits (l_acc l) k (l_queue l) Hok) as Hfit.
    destruct (read_data _ _ _) as [| b data] eqn:Hd; [exact Hok |].
    cbv zeta.
    pose proof (packet_loop_ok e src
      (Z.to_nat (a_len (receive (l_acc l) (b :: data))))
      (receive (l_acc l) (b :: data)) nw
      (proj1 (receive_ok _ _ Hok Hfit))) as H.
    destruct (packet_loop _ _ _ _ _) as [[a2 nw2] evs2]. exact H.
  - destruct er; exact Hok.
Qed.

Lemma stack_array_length (junk : list byte) :
  length (stack_array junk) = Z.to_nat BUF_SIZE.
Proof.
  unfold stack_array. rewrite length_take, length_app, repeat_length. lia.
Qed.

Lemma init_bridge_ok (e : env) : bridge_ok (init_bridge e).
Proof.
  split; (split; [apply stack_array_length | unfold BUF_SIZE; simpl; lia]).
Qed.

Lemma iteration_ok (e : env) (t : tick) (s : bridge) :
  bridge_ok s -> bridge_ok (state_of (iteration e t s)).
Proof.
  intros Hs. unfold iteration.
  destruct (negb (t_running t)); [exact Hs |].
  destruct (t_select t) as [er | | vs ss]; cbn [state_of].
  - destruct er; exact Hs.
  - exact Hs.
  - assert (H1 : bridge_ok (if vs then pump_vhci e (t_vhci_read t) s else s)).
    { destruct vs; [| exact Hs]. unfold pump_vhci.
      pose proof (pump_ok e VHCI (t_vhci_read t) (b_vhci s) (b_writes s)
                    (proj1 Hs)) as H.
      destruct (pump _ _ _ _ _) as [[l nw] evs].
      split; [exact H | exact (proj2 Hs)]. }
    set (s1 := if vs then pump_vhci e (t_vhci_read t) s else s) in *.
    destruct ss; [| exact H1]. unfold pump_stpbt.
    pose proof (pump_ok e STPBT (t_stpbt_read t) (b_stpbt s1) (b_writes s1)
                  (proj2 H1)) as H.
    destruct (pump _ _ _ _ _) as [[l nw] evs].
    split; [exact (proj1 H1) | exact H].
Qed.

Lemma main_loop_ok (e : env) (ts : list tick) :
  forall s, bridge_ok s -> bridge_ok (state_of (main_loop e ts s)).
Proof.
  induction ts as [| t ts IH]; intros s Hs; cbn [main_loop]; [exact Hs |].
  pose proof (iteration_ok e t s Hs) as Hi.
  destruct (iteration e t s) as [s' | s']; [apply IH |]; exact Hi.
Qed.

(** C9: the invariant of an accumulation buffer.  In every state the
    select loop reaches, both arrays have their size and both counts
    satisfy 0 <= len <= BUF_SIZE.  Under these bounds, storing what
    [read] returned keeps them and appends the data to the pending bytes
    [0, len); every extraction takes a packet of 0 < pkt_len <= len bytes
    that is the front of the pending bytes, leaves exactly the remaining
    len - pkt_len bytes, moved to index 0, and keeps the bounds; and so
    the bounds hold again after a whole read-and-extract round. *)
Theorem accumulator_invariant (e : env) (src : endpoint) :
  (forall ts, bridge_ok (state_of (main_loop e ts (init_bridge e)))) /\
  (forall a, acc_ok a ->
     (forall k q, let data := read_data a k q in
        acc_ok (receive a data) /\
        pending (receive a data) = pending a ++ data) /\
     (forall nw evs a' nw',
        packet_body e src a nw = (evs, Some (a', nw')) ->
        exists (pkt_len : Z) (internal : bool),
          0 < pkt_len <= a_len a /\
          packets_of src evs = [(internal, take (Z.to_nat pkt_len) (pending a))] /\
          a_len a' = a_len a - pkt_len /\
          pending a' = drop (Z.to_nat pkt_len) (pending a) /\
          acc_ok a') /\
     (forall r q nw, acc_ok (l_acc (fst (fst (pump e src r (Lane a q) nw)))))).
Proof.
  split; [intros ts; apply main_loop_ok, init_bridge_ok |].
  intros a Hok. split; [| split].
  - intros k q data. apply receive_ok; [exact Hok |].
    apply read_data_fits, Hok.
  - intros nw evs a' nw' Hb.
    destruct (packet_body_some e src a a' nw nw' evs Hok Hb)
      as (Hp & -> & -> & _).
    set (r := get_packet_len (pending a) (a_len a)) in *.
    destruct (remove_packet_ok a (pl_ret r) Hok Hp) as (Hok' & Hlen & Hpend).
    exists (pl_ret r), (pl_internal r). repeat split; try lia; try assumption;
      try apply Hok'.
    assert (Hlog : packets_of src (pl_log r) = []).
    { subst r. unfold get_packet_len.
      repeat match goal with
      | |- context [if ?c then _ else _] => destruct c
      end; reflexivity. }
    rewrite packets_of_app, Hlog, packets_of_packet, forward_packet.
    reflexivity.
  - intros r q nw. apply (pump_ok e src r (Lane a q) nw Hok).
Qed.

(** ** The forwarding policy *)

Lemma policy_nil : policy [].
Proof. split; reflexivity. Qed.

Lemma policy_app (t1 t2 : list event) :
  policy t1 -> policy t2 -> policy (t1 ++ t2).
Proof.
  intros [H1 H1'] [H2 H2']. unfold policy.
  rewrite !writes_to_app, !packets_of_app, !map_app, List.filter_app.
  rewrite H1, H1', H2, H2'. split; reflexivity.
Qed.

(** A positive result comes with an empty log, and with the internal
    flag set exactly for the tag 0xff. *)
Lemma get_packet_len_positive (buf : list byte) (len : Z) :
  0 < pl_ret (get_packet_len buf len) ->
  pl_internal (get_packet_len buf len) = (rd buf 0 =? HCI_VENDOR_PKT) /\
  pl_log (get_packet_len buf len) = [].
Proof.
  unfold get_packet_len, HCI_COMMAND_PKT, HCI_ACLDATA_PKT, HCI_SCODATA_PKT,
    HCI_EVENT_PKT, HCI_VHCI_PKT, HCI_VENDOR_PKT.
  destruct (len <? 1); simpl; [lia |].
  destruct (rd buf 0 =? 1) eqn:E1.
  { apply Z.eqb_eq in E1. rewrite E1. destruct (len <? 4); simpl; [lia | auto]. }
  destruct (rd buf 0 =? 2) eqn:E2.
  { apply Z.eqb_eq in E2. rewrite E2. destruct (len <? 5); simpl; [lia | auto]. }
  destruct (rd buf 0 =? 3) eqn:E3.
  { apply Z.eqb_eq in E3. rewrite E3. destruct (len <? 4); simpl; [lia | auto]. }
  destruct (rd buf 0 =? 4) eqn:E4.
  { apply Z.eqb_eq in E4. rewrite E4. destruct (len <? 3); simpl; [lia | auto]. }
  destruct (rd buf 0 =? 255) eqn:E5.
  { destruct (len <? 2); simpl; [lia | auto]. }
  simpl. lia.
Qed.

Lemma get_packet_len_log (buf : list byte) (len : Z) :
  policy (pl_log (get_packet_len buf len)).
Proof.
  unfold get_packet_len.
  repeat match goal with
  | |- context [if ?c then _ else _] => destruct c
  end; split; reflexivity.
Qed.

Lemma packet_body_policy (e : env) (src : endpoint) (a : accum) (nw : nat) :
  policy (fst (packet_body e src a nw)).
Proof.
  unfold packet_body.
  set (r := get_packet_len (a_buf a) (a_len a)).
  pose proof (get_packet_len_log (a_buf a) (a_len a)) as Hlog. fold r in Hlog.
  destruct (pl_ret r <=? 0) eqn:H0; [exact Hlog |].
  destruct (pl_ret r >? a_len a); [exact Hlog |].
  apply Z.leb_gt in H0.
  destruct (get_packet_len_positive (a_buf a) (a_len a) H0) as [Hi _].
  fold r in Hi.
  assert (Hv : is_vendor (take (Z.to_nat (pl_ret r)) (a_buf a)) = pl_internal r).
  { unfold is_vendor. rewrite rd_take by lia. symmetry. exact Hi. }
  destruct (forward _ _ _ _ _ _) as [nw1 evs1] eqn:Hf. simpl.
  apply policy_app; [exact Hlog |].
  unfold forward in Hf.
  destruct src, (pl_internal r); injection Hf as <- <-;
    unfold policy; simpl; rewrite ?Hv; simpl;
    try destruct (write_ret e nw _ (pl_ret r) =? pl_ret r); split; reflexivity.
Qed.

Lemma packet_loop_policy (e : env) (src : endpoint) (fuel : nat) :
  forall (a : accum) (nw : nat), policy (snd (packet_loop e src fuel a nw)).
Proof.
  induction fuel as [| fuel IH]; intros a nw; simpl; [apply policy_nil |].
  destruct (a_len a >? 0); [| apply policy_nil].
  pose proof (packet_body_policy e src a nw) as Hb.
  destruct (packet_body e src a nw) as [evs [[a' nw'] |]]; [| exact Hb].
  specialize (IH a' nw').
  destruct (packet_loop e src fuel a' nw') as [[a2 nw2] evs2].
  apply policy_app; assumption.
Qed.

Lemma pump_policy (e : env) (src : endpoint) (r : read_result) (l : lane)
    (nw : nat) :
  policy (snd (pump e src r l nw)).
Proof.
  destruct r as [k | er].
  - rewrite pump_read. destruct (read_data _ _ _) as [| b data];
      [apply policy_nil |]. cbv zeta.
    pose proof (packet_loop_policy e src
      (Z.to_nat (a_len (receive (l_acc l) (b :: data))))
      (receive (l_acc l) (b :: data)) nw) as H.
    destruct (packet_loop _ _ _ _ _) as [[a2 nw2] evs2]. exact H.
  - destruct er; split; reflexivity.
Qed.

Lemma iteration_policy (e : env) (t : tick) (s : bridge) :
  policy (b_out s) -> policy (b_out (state_of (iteration e t s))).
Proof.
  intros Hs. unfold iteration.
  destruct (negb (t_running t)); [exact Hs |].
  destruct (t_select t) as [er | | vs ss]; simpl.
  - destruct er; simpl; try exact Hs;
      (apply policy_app; [exact Hs | split; reflexivity]).
  - exact Hs.
  - assert (H1 : policy (b_out (if vs then pump_vhci e (t_vhci_read t) s else s))).
    { destruct vs; [| exact Hs]. unfold pump_vhci.
      pose proof (pump_policy e VHCI (t_vhci_read t) (b_vhci s) (b_writes s)) as H.
      destruct (pump _ _ _ _ _) as [[l nw] evs]. simpl.
      apply policy_app; assumption. }
    set (s1 := if vs then pump_vhci e (t_vhci_read t) s else s) in *.
    destruct ss; [| exact H1]. unfold pump_stpbt.
    pose proof (pump_policy e STPBT (t_stpbt_read t) (b_stpbt s1) (b_writes s1)) as H.
    destruct (pump _ _ _ _ _) as [[l nw] evs]. simpl.
    apply policy_app; assumption.
Qed.

Lemma main_loop_policy (e : env) (ts : list tick) :
  forall s, policy (b_out s) -> policy (b_out (state_of (main_loop e ts s))).
Proof.
  induction ts as [| t ts IH]; intros s Hs; simpl; [exact Hs |].
  pose proof (iteration_policy e t s Hs) as Hi.
  destruct (iteration e t s) as [s' | s']; simpl in *; [apply IH |]; exact Hi.
Qed.

(** C3: at every point of every run, whatever the kernel answers, the
    bytes written to /dev/stpbt are exactly the packets extracted on the
    VHCI side that do not carry the tag 0xff, each written whole and
    unchanged, and the bytes written to /dev/vhci are exactly the packets
    extracted on the stpbt side, vendor packets included. *)
Theorem forwarding_policy (e : env) (ts : list tick) :
  let tr := b_out (state_of (main_loop e ts (init_bridge e))) in
  writes_to STPBT tr =
    List.filter (fun p => negb (is_vendor p)) (map snd (packets_of VHCI tr)) /\
  writes_to VHCI tr = map snd (packets_of STPBT tr).
Proof.
  apply (main_loop_policy e ts (init_bridge e)). apply policy_nil.
Qed.

(** ** Leaving the loop *)

Lemma iteration_exit (e : env) (t : tick) (s : bridge) :
  leaves_loop t = true -> exists s', iteration e t s = Exit s'.
Proof.
  unfold leaves_loop, iteration. destruct (negb (t_running t)); simpl.
  - eauto.
  - destruct (t_select t) as [[| | c] | | vs ss]; try discriminate; eauto.
Qed.

Lemma iteration_continue (e : env) (t : tick) (s : bridge) :
  leaves_loop t = false -> exists s', iteration e t s = Continue s'.
Proof.
  unfold leaves_loop, iteration. destruct (negb (t_running t)); simpl;
    [discriminate |].
  destruct (t_select t) as [[| | c] | | vs ss]; try discriminate; eauto.
Qed.

Lemma main_loop_exit (e : env) (ts : list tick) :
  forall s, existsb leaves_loop ts = true ->
  exists s', main_loop e ts s = Exit s'.
Proof.
  induction ts as [| t ts IH]; intros s H; simpl in *; [discriminate |].
  destruct (leaves_loop t) eqn:Ht.
  - destruct (iteration_exit e t s Ht) as [s' ->]. eauto.
  - destruct (iteration_continue e t s Ht) as [s' ->]. apply IH, H.
Qed.

Lemma main_loop_continue (e : env) (ts : list tick) :
  forall s, existsb leaves_loop ts = false ->
  exists s', main_loop e ts s = Continue s'.
Proof.
  induction ts as [| t ts IH]; intros s H; simpl in *; [eauto |].
  apply orb_false_iff in H as [Ht H].
  destruct (iteration_continue e t s Ht) as [s' ->]. apply IH, H.
Qed.

(** A readable endpoint never ends the loop, whatever [read] and
    [write] return. *)
Lemma iteration_ready (e : env) (s : bridge) (vs ss : bool)
    (r1 r2 : read_result) :
  exists s', iteration e (Tick true (SelectReady vs ss) r1 r2) s = Continue s'.
Proof. unfold iteration; simpl. eauto. Qed.

Lemma log_nil (s : bridge) : log [] s = s.
Proof. destruct s. unfold log; simpl. rewrite app_nil_r. reflexivity. Qed.

(** C8, as the code has it: when an [open] or [set_nonblocking] fails
    the process exits with status 1 without entering the loop; once the
    loop is entered the process exits as soon as the loop is left, by a
    cleared [running] flag or by a failed [select] alike, and then always
    with status 0; and as long as neither happens it does not exit. *)
Theorem exit_status (e : env) :
  (started e = false -> exists tr, main e = Some (1, tr)) /\
  (started e = true -> existsb leaves_loop (script e) = true ->
     exists tr, main e = Some (0, tr ++ [EvClose STPBT; EvClose VHCI])) /\
  (started e = true -> existsb leaves_loop (script e) = false ->
     main e = None).
Proof.
  unfold started, main. split; [| split].
  - intros H.
    destruct (open_vhci_ok e); simpl in *; [| eauto].
    destruct (open_stpbt_ok e); simpl in *; [| eauto].
    destruct (nonblock_vhci_ok e); simpl in *; [| eauto].
    destruct (nonblock_stpbt_ok e); simpl in *; [discriminate | eauto].
  - intros H Hx.
    apply andb_true_iff in H as [H H4]. apply andb_true_iff in H as [H H3].
    apply andb_true_iff in H as [H1 H2]. rewrite H1, H2, H3, H4. simpl.
    destruct (main_loop_exit e (script e) (init_bridge e) Hx) as [s' ->].
    eauto.
  - intros H Hx.
    apply andb_true_iff in H as [H H4]. apply andb_true_iff in H as [H H3].
    apply andb_true_iff in H as [H1 H2]. rewrite H1, H2, H3, H4. simpl.
    destruct (main_loop_continue e (script e) (init_bridge e) Hx) as [s' ->].
    reflexivity.
Qed.

(** C7, as the code has it: a failed [read] leaves the buffers alone; with
    EAGAIN nothing at all happens, with any other errno [perror] is
    called; and in both cases the loop goes on. *)
Theorem read_error_handling (e : env) (s : bridge) (r : read_result)
    (er : errno) (vs ss : bool) (r1 r2 : read_result) :
  iteration e (Tick true (SelectReady true false) (ReadFail er) r) s =
    Continue (match er with
              | EAGAIN => s
              | _ => log [EvPerror "read from vhci"] s
              end) /\
  iteration e (Tick true (SelectReady false true) r (ReadFail er)) s =
    Continue (match er with
              | EAGAIN => s
              | _ => log [EvPerror "read from stpbt"] s
              end) /\
  exists s', iteration e (Tick true (SelectReady vs ss) r1 r2) s = Continue s'.
Proof.
  split; [| split].
  - unfold iteration, pump_vhci; simpl. destruct er; simpl;
      try reflexivity. f_equal. apply log_nil.
  - unfold iteration, pump_stpbt; simpl. destruct er; simpl;
      try reflexivity. f_equal. apply log_nil.
  - apply iteration_ready.
Qed.

(** ** Short writes *)

Lemma same_traffic_refl (t : list event) : same_traffic t t.
Proof. intros fd. split; reflexivity. Qed.

Lemma same_traffic_app (t1 t2 u1 u2 : list event) :
  same_traffic t1 u1 -> same_traffic t2 u2 ->
  same_traffic (t1 ++ t2) (u1 ++ u2).
Proof.
  intros H1 H2 fd. destruct (H1 fd) as [Hp1 Hw1], (H2 fd) as [Hp2 Hw2].
  rewrite !packets_of_app, !writes_to_app, Hp1, Hp2, Hw1, Hw2.
  split; reflexivity.
Qed.

Lemma forward_env (e e' : env) (src : endpoint) (i : bool) (pkt : list byte)
    (pkt_len : Z) (nw : nat) :
  fst (forward e src i pkt pkt_len nw) = fst (forward e' src i pkt pkt_len nw) /\
  same_traffic (snd (forward e src i pkt pkt_len nw))
               (snd (forward e' src i pkt pkt_len nw)).
Proof.
  unfold forward.
  destruct src, i; simpl; split; try reflexivity; try apply same_traffic_refl;
    intros fd;
    destruct (write_ret e nw _ pkt_len =? pkt_len),
             (write_ret e' nw _ pkt_len =? pkt_len);
    destruct fd; split; reflexivity.
Qed.

Lemma packet_body_env (e e' : env) (src : endpoint) (a : accum) (nw : nat) :
  snd (packet_body e src a nw) = snd (packet_body e' src a nw) /\
  same_traffic (fst (packet_body e src a nw)) (fst (packet_body e' src a nw)).
Proof.
  unfold packet_body.
  set (r := get_packet_len (a_buf a) (a_len a)).
  destruct (pl_ret r <=? 0); [split; [reflexivity | apply same_traffic_refl] |].
  destruct (pl_ret r >? a_len a);
    [split; [reflexivity | apply same_traffic_refl] |].
  pose proof (forward_env e e' src (pl_internal r)
    (take (Z.to_nat (pl_ret r)) (a_buf a)) (pl_ret r) nw) as [Hn Ht].
  destruct (forward e _ _ _ _ _) as [n1 ev1].
  destruct (forward e' _ _ _ _ _) as [n2 ev2]. simpl in *. subst n2.
  split; [reflexivity |].
  apply same_traffic_app; [apply same_traffic_refl |].
  apply (same_traffic_app [_] ev1 [_] ev2); [apply same_traffic_refl | exact Ht].
Qed.

Lemma packet_loop_env (e e' : env) (src : endpoint) (fuel : nat) :
  forall (a : accum) (nw : nat),
  fst (packet_loop e src fuel a nw) = fst (packet_loop e' src fuel a nw) /\
  same_traffic (snd (packet_loop e src fuel a nw))
               (snd (packet_loop e' src fuel a nw)).
Proof.
  induction fuel as [| fuel IH]; intros a nw; simpl;
    [split; [reflexivity | apply same_traffic_refl] |].
  destruct (a_len a >? 0); [| split; [reflexivity | apply same_traffic_refl]].
  destruct (packet_body_env e e' src a nw) as [Hs Ht].
  destruct (packet_body e src a nw) as [ev1 o1].
  destruct (packet_body e' src a nw) as [ev2 o2]. simpl in *. subst o2.
  destruct o1 as [[a' nw'] |]; [| split; [reflexivity | exact Ht]].
  destruct (IH a' nw') as [Hf Hl].
  destruct (packet_loop e src fuel a' nw') as [[a1 n1] l1].
  destruct (packet_loop e' src fuel a' nw') as [[a2 n2] l2]. simpl in *.
  split; [exact Hf | apply same_traffic_app; assumption].
Qed.

Lemma pump_env (e e' : env) (src : endpoint) (r : read_result) (l : lane)
    (nw : nat) :
  fst (pump e src r l nw) = fst (pump e' src r l nw) /\
  same_traffic (snd (pump e src r l nw)) (snd (pump e' src r l nw)).
Proof.
  destruct r as [k | er].
  - rewrite !pump_read. destruct (read_data _ _ _) as [| b data];
      [split; [reflexivity | apply same_traffic_refl] |]. cbv zeta.
    destruct (packet_loop_env e e' src
      (Z.to_nat (a_len (receive (l_acc l) (b :: data))))
      (receive (l_acc l) (b :: data)) nw) as [Hf Hl].
    destruct (packet_loop e _ _ _ _) as [[a1 n1] l1].
    destruct (packet_loop e' _ _ _ _) as [[a2 n2] l2]. simpl in *.
    injection Hf as <- <-. split; [reflexivity | exact Hl].
  - destruct er; split; try reflexivity; apply same_traffic_refl.
Qed.

(** C6, as the code has it: a [write] that returns something other than
    the packet length makes the code call [perror], and nothing more.
    The buffers, the count of writes, the packets extracted and the bytes
    handed to [write] in a read-and-extract round are the same whatever
    the [write]s return, so the packet is removed and never retried, the
    packets behind it are still forwarded, and the loop goes on. *)
Theorem short_write_handling (e e' : env) (src : endpoint) (pkt : list byte)
    (pkt_len : Z) (nw : nat) (r : read_result) (l : lane)
    (s : bridge) (vs ss : bool) (r1 r2 : read_result) :
  write_ret e nw (other src) pkt_len <> pkt_len ->
  forward e src false pkt pkt_len nw =
    (S nw, [EvWrite (other src) pkt (write_ret e nw (other src) pkt_len);
            EvPerror (write_msg src)]) /\
  fst (pump e src r l nw) = fst (pump e' src r l nw) /\
  same_traffic (snd (pump e src r l nw)) (snd (pump e' src r l nw)) /\
  exists s', iteration e (Tick true (SelectReady vs ss) r1 r2) s = Continue s'.
Proof.
  intros Hshort. split; [| split; [| split]].
  - unfold forward. apply Z.eqb_neq in Hshort.
    destruct src; rewrite Hshort; reflexivity.
  - apply pump_env.
  - apply pump_env.
  - apply iteration_ready.
Qed.

(** ** Unknown packet types *)

Lemma get_packet_len_invalid (buf : list byte) (len : Z) :
  1 <= len ->
  type_of_tag (rd buf 0) = None ->
  get_packet_len buf len = PktLen (-1) false [EvUnknownType (rd buf 0)].
Proof.
  unfold type_of_tag, get_packet_len, HCI_COMMAND_PKT, HCI_ACLDATA_PKT,
    HCI_SCODATA_PKT, HCI_EVENT_PKT, HCI_VHCI_PKT.
  intros Hlen Hty.
  assert ((len <? 1) = false) as -> by lia.
  destruct (rd buf 0 =? 1); [discriminate |].
  destruct (rd buf 0 =? 2); [discriminate |].
  destruct (rd buf 0 =? 3); [discriminate |].
  destruct (rd buf 0 =? 4); [discriminate |].
  destruct (rd buf 0 =? 255); [discriminate | reflexivity].
Qed.

Lemma rd_app_l (l k : list byte) (i : nat) :
  (i < length l)%nat -> rd (l ++ k) i = rd l i.
Proof. intros Hi. unfold rd. rewrite app_nth1 by exact Hi. reflexivity. Qed.

Lemma rd_receive (a : accum) (data : list byte) (i : nat) :
  acc_ok a -> (i < Z.to_nat (a_len a))%nat ->
  rd (a_buf (receive a data)) i = rd (a_buf a) i.
Proof.
  intros [Hb Hl] Hi. unfold receive, store; simpl.
  rewrite rd_app_l by (rewrite length_take; lia).
  apply rd_take. exact Hi.
Qed.

Lemma packet_loop_stuck (e : env) (src : endpoint) (a : accum) (nw : nat) :
  stuck a ->
  packet_loop e src (Z.to_nat (a_len a)) a nw =
    (a, nw, [EvUnknownType (rd (a_buf a) 0)]).
Proof.
  intros (Hok & Hlen & Hty).
  destruct (Z.to_nat (a_len a)) as [| fuel] eqn:Hf; [lia |]. simpl.
  assert ((a_len a >? 0) = true) as -> by lia.
  unfold packet_body. rewrite get_packet_len_invalid by assumption.
  reflexivity.
Qed.

Lemma pump_stuck (e : env) (src : endpoint) (r : read_result) (l : lane)
    (nw : nat) :
  stuck (l_acc l) ->
  stuck (l_acc (fst (fst (pump e src r l nw)))) /\
  rd (a_buf (l_acc (fst (fst (pump e src r l nw))))) 0 = rd (a_buf (l_acc l)) 0 /\
  snd (fst (pump e src r l nw)) = nw /\
  (forall fd, packets_of fd (snd (pump e src r l nw)) = [] /\
              writes_to fd (snd (pump e src r l nw)) = []).
Proof.
  intros Hst. destruct r as [k | er].
  - rewrite pump_read.
    pose proof Hst as (Hok & Hlen & Hty).
    pose proof (read_data_fits (l_acc l) k (l_queue l) Hok) as Hfit.
    destruct (read_data _ _ _) as [| b data] eqn:Hd.
    { simpl. split; [exact Hst | repeat split; reflexivity]. }
    cbv zeta.
    destruct (receive_ok (l_acc l) (b :: data) Hok Hfit) as [Hok1 _].
    assert (Hrd : rd (a_buf (receive (l_acc l) (b :: data))) 0 =
                  rd (a_buf (l_acc l)) 0) by (apply rd_receive; [exact Hok | lia]).
    assert (Hst1 : stuck (receive (l_acc l) (b :: data))).
    { split; [exact Hok1 | split].
      - unfold receive; simpl. lia.
      - rewrite Hrd. exact Hty. }
    rewrite (packet_loop_stuck e src _ nw Hst1). simpl.
    split; [exact Hst1 | split; [exact Hrd | split; [reflexivity |]]].
    intros fd. destruct fd; split; reflexivity.
  - destruct er; simpl; (split; [exact Hst | repeat split; reflexivity]).
Qed.

Lemma feed_stuck (e : env) (src : endpoint) (ks : list nat) :
  forall (l : lane) (nw : nat),
  stuck (l_acc l) ->
  stuck (l_acc (fst (fst (feed e src ks l nw)))) /\
  (forall fd, packets_of fd (snd (feed e src ks l nw)) = [] /\
              writes_to fd (snd (feed e src ks l nw)) = []).
Proof.
  induction ks as [| k ks IH]; intros l nw Hst; cbn [feed].
  - split; [exact Hst | intros fd; split; reflexivity].
  - destruct (pump_stuck e src (ReadUpTo k) l nw Hst) as (Hst1 & _ & _ & Hev1).
    destruct (pump e src (ReadUpTo k) l nw) as [[l1 nw1] evs1]. simpl in *.
    destruct (IH l1 nw1 Hst1) as (Hst2 & Hev2).
    destruct (feed e src ks l1 nw1) as [[l2 nw2] evs2]. simpl in *.
    split; [exact Hst2 |]. intros fd.
    rewrite packets_of_app, writes_to_app.
    destruct (Hev1 fd) as [-> ->], (Hev2 fd) as [-> ->]. split; reflexivity.
Qed.

(** C4, as the code has it: with a first pending byte outside
    {0x01, 0x02, 0x03, 0x04, 0xff}, [get_packet_len] returns -1 and prints
    the unknown type; the packet loop stops there without removing
    anything, so the same byte heads the buffer after every later read,
    however many there are, and that direction extracts and writes
    nothing more; the select loop itself goes on. *)
Theorem invalid_type_handling (e : env) (src : endpoint) (l : lane) (nw : nat)
    (ks : list nat) (s : bridge) (vs ss : bool) (r1 r2 : read_result) :
  stuck (l_acc l) ->
  get_packet_len (a_buf (l_acc l)) (a_len (l_acc l)) =
    PktLen (-1) false [EvUnknownType (rd (a_buf (l_acc l)) 0)] /\
  stuck (l_acc (fst (fst (feed e src ks l nw)))) /\
  (forall fd, packets_of fd (snd (feed e src ks l nw)) = [] /\
              writes_to fd (snd (feed e src ks l nw)) = []) /\
  exists s', iteration e (Tick true (SelectReady vs ss) r1 r2) s = Continue s'.
Proof.
  intros Hst. split; [| split; [| split]].
  - apply get_packet_len_invalid; apply Hst.
  - apply feed_stuck, Hst.
  - apply feed_stuck, Hst.
  - apply iteration_ready.
Qed.

(** ** A full buffer *)

Lemma pump_full (e : env) (src : endpoint) (k : nat) (l : lane) (nw : nat) :
  a_len (l_acc l) = BUF_SIZE ->
  pump e src (ReadUpTo k) l nw = (l, nw, []).
Proof.
  intros Hfull. rewrite pump_read. unfold read_data.
  rewrite Hfull, Z.sub_diag. simpl. rewrite Nat.min_0_r, take_0. reflexivity.
Qed.

Lemma take_drop_length {A : Type} (n : nat) (q : list A) :
  q = take n q ++ drop (length (take n q)) q.
Proof.
  destruct (Nat.le_gt_cases n (length q)) as [Hle | Hgt].
  - rewrite length_take, Nat.min_l by exact Hle.
    symmetry. apply take_drop.
  - rewrite take_ge by lia. rewrite drop_all, app_nil_r. reflexivity.
Qed.

Lemma pump_queue (e : env) (src : endpoint) (r : read_result) (l : lane)
    (nw : nat) :
  exists data,
    l_queue l = data ++ l_queue (fst (fst (pump e src r l nw))) /\
    Z.of_nat (length data) <= Z.max 0 (BUF_SIZE - a_len (l_acc l)).
Proof.
  destruct r as [k | er].
  - rewrite pump_read.
    assert (Hfit : Z.of_nat (length (read_data (l_acc l) k (l_queue l)))
                   <= Z.max 0 (BUF_SIZE - a_len (l_acc l)))
      by (unfold read_data; rewrite length_take; lia).
    assert (Hsplit : l_queue l = read_data (l_acc l) k (l_queue l) ++
              drop (length (read_data (l_acc l) k (l_queue l))) (l_queue l)).
    { unfold read_data. apply take_drop_length. }
    destruct (read_data _ _ _) as [| b data] eqn:Hd.
    + exists []. split; [reflexivity | simpl; lia].
    + cbv zeta. destruct (packet_loop _ _ _ _ _) as [[a2 nw2] evs2]. simpl.
      exists (b :: data). split; [exact Hsplit | exact Hfit].
  - exists []. destruct er; simpl; split; try reflexivity; lia.
Qed.

(** C5, as the code has it: every [read] asks for at most the free space
    [BUF_SIZE - len], so the count of pending bytes never passes
    [BUF_SIZE] and what does not fit stays queued in the kernel; once the
    buffer is full a further read moves nothing, changes nothing and
    prints nothing; and the loop goes on. *)
Theorem full_buffer_handling (e : env) (src : endpoint) (r : read_result)
    (k : nat) (l : lane) (nw : nat) (s : bridge) (vs ss : bool)
    (r1 r2 : read_result) :
  acc_ok (l_acc l) ->
  acc_ok (l_acc (fst (fst (pump e src r l nw)))) /\
  (exists data,
     l_queue l = data ++ l_queue (fst (fst (pump e src r l nw))) /\
     Z.of_nat (length data) <= Z.max 0 (BUF_SIZE - a_len (l_acc l))) /\
  (a_len (l_acc l) = BUF_SIZE -> pump e src (ReadUpTo k) l nw = (l, nw, [])) /\
  exists s', iteration e (Tick true (SelectReady vs ss) r1 r2) s = Continue s'.
Proof.
  intros Hok. split; [| split; [| split]].
  - apply pump_ok, Hok.
  - apply pump_queue.
  - apply pump_full.
  - apply iteration_ready.
Qed.

(** ** Vendor packets *)

(** C10: with the tag 0xff alone in the buffer [get_packet_len] returns 0,
    and the packet loop leaves the byte where it is, extracting and
    printing nothing; from two buffered bytes on it returns the whole
    buffered length. *)
Theorem vendor_minimum_length (e : env) (src : endpoint) (a : accum)
    (nw fuel : nat) :
  rd (a_buf a) 0 = HCI_VHCI_PKT ->
  get_packet_len (a_buf a) 1 = PktLen 0 true [] /\
  (forall len, 2 <= len -> get_packet_len (a_buf a) len = PktLen len true []) /\
  (a_len a = 1 -> packet_loop e src fuel a nw = (a, nw, [])).
Proof.
  intros Htag.
  assert (H1 : get_packet_len (a_buf a) 1 = PktLen 0 true [])
    by (unfold get_packet_len; rewrite Htag; reflexivity).
  split; [exact H1 | split].
  - intros len Hlen. unfold get_packet_len. rewrite Htag. simpl.
    assert ((len <? 1) = false) as -> by lia.
    assert ((len <? 2) = false) as -> by lia. reflexivity.
  - intros Hlen. destruct fuel as [| fuel]; [reflexivity |]. simpl.
    rewrite Hlen. simpl. unfold packet_body. rewrite Hlen, H1. reflexivity.
Qed.

(** ** Frames *)

Lemma sized_frame_type (f : list byte) :
  sized_frame f ->
  exists ty, ty <> Vendor /\ type_of_tag (rd f 0) = Some ty /\
             min_header ty <= Z.of_nat (length f) /\
             table_length ty f = Z.of_nat (length f).
Proof.
  intros [o1 o2 n payload H | h1 h2 lo hi payload H | h1 h2 n payload H
         | c n payload H].
  - exists Command. repeat split; try discriminate;
      unfold min_header, table_length, le16, rd in *; cbn [nth length]; lia.
  - exists ACLData. repeat split; try discriminate;
      unfold min_header, table_length, le16, rd in *; cbn [nth length]; lia.
  - exists SCOData. repeat split; try discriminate;
      unfold min_header, table_length, le16, rd in *; cbn [nth length]; lia.
  - exists Event. repeat split; try discriminate;
      unfold min_header, table_length, le16, rd in *; cbn [nth length]; lia.
Qed.

Lemma table_length_agree (ty : frame_type) (p f : list byte) :
  (forall i, Z.of_nat i < min_header ty -> rd p i = rd f i) ->
  table_length ty p = table_length ty f.
Proof.
  intros H. destruct ty; simpl in *;
    rewrite ?(H 2%nat), ?(H 3%nat), ?(H 4%nat) by lia; reflexivity.
Qed.

(** On a buffer that starts like the frame [f], [get_packet_len] says
    "not yet" or gives the length of [f]. *)
Lemma get_packet_len_frame (f p : list byte) (len : Z) :
  sized_frame f ->
  1 <= len ->
  (forall i, Z.of_nat i < len -> Z.of_nat i < Z.of_nat (length f) ->
     rd p i = rd f i) ->
  pl_log (get_packet_len p len) = [] /\
  pl_internal (get_packet_len p len) = false /\
  (pl_ret (get_packet_len p len) = 0 /\ len < Z.of_nat (length f) \/
   pl_ret (get_packet_len p len) = Z.of_nat (length f)).
Proof.
  intros Hf Hlen Hrd.
  destruct (sized_frame_type f Hf) as (ty & Hnv & Hty & Hmin & Htab).
  assert (Hmh : 2 <= min_header ty) by (destruct ty; simpl; lia).
  assert (Hty' : type_of_tag (rd p 0) = Some ty)
    by (rewrite (Hrd 0%nat) by lia; exact Hty).
  destruct (Z.lt_ge_cases len (min_header ty)) as [Hlt | Hge].
  - destruct (get_packet_len_short p len ty Hty' Hlt) as [Hr Hl].
    assert (Hi : pl_internal (get_packet_len p len) = false).
    { unfold get_packet_len.
      unfold type_of_tag in Hty'. unfold HCI_COMMAND_PKT, HCI_ACLDATA_PKT,
        HCI_SCODATA_PKT, HCI_EVENT_PKT, HCI_VHCI_PKT.
      destruct (len <? 1); [reflexivity |].
      destruct (rd p 0 =? 1); [destruct (len <? 4); reflexivity |].
      destruct (rd p 0 =? 2); [destruct (len <? 5); reflexivity |].
      destruct (rd p 0 =? 3); [destruct (len <? 4); reflexivity |].
      destruct (rd p 0 =? 4); [destruct (len <? 3); reflexivity |].
      destruct (rd p 0 =? 255); [congruence | reflexivity]. }
    split; [exact Hl | split; [exact Hi | left; lia]].
  - rewrite (get_packet_len_known p len ty Hty' Hnv Hge). simpl.
    split; [reflexivity | split; [reflexivity | right]].
    rewrite <- Htab. apply table_length_agree. intros i Hi. apply Hrd; lia.
Qed.

Lemma packet_body_extract (e : env) (src : endpoint) (a : accum) (nw : nat) :
  acc_ok a ->
  let r := get_packet_len (pending a) (a_len a) in
  let pkt := take (Z.to_nat (pl_ret r)) (pending a) in
  0 < pl_ret r <= a_len a ->
  packet_body e src a nw =
    (pl_log r ++ EvPacket src (pl_internal r) pkt ::
       snd (forward e src (pl_internal r) pkt (pl_ret r) nw),
     Some (remove_packet a (pl_ret r),
           fst (forward e src (pl_internal r) pkt (pl_ret r) nw))).
Proof.
  intros Hok r pkt Hp. subst r pkt. revert Hp.
  unfold packet_body, pending. rewrite get_packet_len_take. intros Hp.
  assert ((pl_ret (get_packet_len (a_buf a) (a_len a)) <=? 0) = false)
    as -> by lia.
  assert ((pl_ret (get_packet_len (a_buf a) (a_len a)) >? a_len a) = false)
    as -> by lia.
  rewrite take_take.
  replace (Nat.min (Z.to_nat (pl_ret (get_packet_len (a_buf a) (a_len a))))
                   (Z.to_nat (a_len a)))
    with (Z.to_nat (pl_ret (get_packet_len (a_buf a) (a_len a)))) by lia.
  destruct (forward _ _ _ _ _ _) as [nw1 evs1]. reflexivity.
Qed.

(** With whole frames and then a proper start of a frame pending, the
    loop takes the frames one by one and stops at the rest. *)
Lemma packet_loop_frames (e : env) (src : endpoint) (gs : list (list byte)) :
  Forall sized_frame gs ->
  forall (p : list byte) (fuel : nat) (a : accum) (nw : nat),
  acc_ok a ->
  pending a = concat gs ++ p ->
  tail_ok p ->
  (Z.to_nat (a_len a) <= fuel)%nat ->
  acc_ok (fst (fst (packet_loop e src fuel a nw))) /\
  pending (fst (fst (packet_loop e src fuel a nw))) = p /\
  packets_of src (snd (packet_loop e src fuel a nw)) = map (pair false) gs.
Proof.
  induction 1 as [| g gs Hg Hgs IH]; intros p fuel a nw Hok Hpend Htail Hfuel.
  - simpl in Hpend.
    destruct fuel as [| fuel]; simpl; [auto |].
    destruct (a_len a >? 0) eqn:Hpos; [| auto].
    pose proof (pending_length a Hok) as Hlen.
    destruct Htail as [-> | (f & Hf & Htake & Hlt)].
    { rewrite Hpend in Hlen. simpl in Hlen. lia. }
    rewrite Hpend in Hlen.
    destruct (get_packet_len_frame f (pending a) (a_len a) Hf) as (Hlog & _ & Hret).
    { lia. }
    { intros i Hi _. rewrite Hpend, <- Htake. apply rd_take. lia. }
    rewrite packet_body_none by (destruct Hret as [[-> _] | ->]; lia).
    rewrite Hlog. simpl. auto.
  - simpl in Hpend.
    pose proof (pending_length a Hok) as Hlen.
    destruct (sized_frame_type g Hg) as (ty & _ & _ & Hmin & _).
    assert (Hmh : 2 <= min_header ty) by (destruct ty; simpl; lia).
    assert (Hglen : (length g <= Z.to_nat (a_len a))%nat).
    { rewrite <- Hlen, Hpend, !length_app. lia. }
    destruct fuel as [| fuel]; [lia |]. cbn [packet_loop].
    assert ((a_len a >? 0) = true) as -> by lia.
    destruct (get_packet_len_frame g (pending a) (a_len a) Hg)
      as (Hlog & Hint & Hret).
    { lia. }
    { intros i _ Hi. rewrite Hpend, <- app_assoc. apply rd_app_l. lia. }
    destruct Hret as [[_ Hbad] | Hret]; [lia |].
    rewrite packet_body_extract by (try exact Hok; lia).
    rewrite Hlog, Hint, Hret, Nat2Z.id.
    assert (Htk : take (length g) (pending a) = g)
      by (rewrite Hpend, <- app_assoc; apply take_app_length).
    rewrite Htk.
    destruct (remove_packet_ok a (Z.of_nat (length g)) Hok) as (Hok' & Hlen' & Hpend');
      [lia |].
    rewrite Nat2Z.id in Hpend'.
    assert (Hrest : pending (remove_packet a (Z.of_nat (length g))) = concat gs ++ p)
      by (rewrite Hpend', Hpend, <- app_assoc; apply drop_app_length).
    specialize (IH p fuel (remove_packet a (Z.of_nat (length g)))
      (fst (forward e src false g (Z.of_nat (length g)) nw)) Hok' Hrest Htail).
    destruct (packet_loop _ _ _ _ _) as [[a2 nw2] evs2]. cbn [fst snd app] in *.
    destruct IH as (H1 & H2 & H3); [lia |].
    split; [exact H1 | split; [exact H2 |]].
    rewrite packets_of_packet, packets_of_app, forward_packet, H3. reflexivity.
Qed.

(** Cutting a run of frames after the bytes [d]: the whole frames in
    [d], and the start of the next one. *)
Lemma split_frames (fs : list (list byte)) :
  forall d r : list byte,
  d ++ r = concat fs ->
  exists gs fs' p,
    fs = gs ++ fs' /\ d = concat gs ++ p /\ p ++ r = concat fs' /\ partial p fs'.
Proof.
  induction fs as [| f fs IH]; intros d r Hd.
  - simpl in Hd. apply app_eq_nil in Hd as [-> ->].
    exists [], [], []. repeat split.
  - destruct (Nat.lt_ge_cases (length d) (length f)) as [Hlt | Hge].
    + exists [], (f :: fs), d. repeat split; auto.
    + simpl in Hd.
      assert (Hf : take (length f) d = f).
      { rewrite <- (take_app_le d r) by exact Hge. rewrite Hd.
        apply take_app_length. }
      assert (Hr : drop (length f) d ++ r = concat fs).
      { rewrite <- (drop_app_le d r) by exact Hge. rewrite Hd.
        apply drop_app_length. }
      destruct (IH _ _ Hr) as (gs & fs' & p & -> & Hd' & Hp & Hpart).
      exists (f :: gs), fs', p. repeat split; auto.
      simpl. rewrite <- app_assoc, <- Hd'.
      rewrite <- (take_drop (length f) d) at 1. rewrite Hf. reflexivity.
Qed.

Lemma partial_tail_ok (p r : list byte) (fs : list (list byte)) :
  Forall sized_frame fs -> p ++ r = concat fs -> partial p fs -> tail_ok p.
Proof.
  intros Hfs Hp Hpart. destruct fs as [| f fs]; [left; exact Hpart |].
  right. exists f. simpl in *. inversion Hfs; subst.
  repeat split; auto.
  rewrite <- (take_app_le f (concat fs)) by lia. rewrite <- Hp.
  apply take_app_length.
Qed.

Lemma pump_frames (e : env) (src : endpoint) (k : nat) (l : lane) (nw : nat)
    (fs : list (list byte)) :
  in_frames l fs ->
  exists gs fs',
    fs = gs ++ fs' /\
    in_frames (fst (fst (pump e src (ReadUpTo k) l nw))) fs' /\
    packets_of src (snd (pump e src (ReadUpTo k) l nw)) = map (pair false) gs.
Proof.
  intros (Hok & Hfs & Hcat & Hpart). rewrite pump_read.
  pose proof (read_data_fits (l_acc l) k (l_queue l) Hok) as Hfit.
  assert (Hsplit : l_queue l = read_data (l_acc l) k (l_queue l) ++
            drop (length (read_data (l_acc l) k (l_queue l))) (l_queue l))
    by (unfold read_data; apply take_drop_length).
  destruct (read_data _ _ _) as [| b data] eqn:Hd.
  { exists [], fs. cbn [fst snd app].
    split; [reflexivity | split; [| reflexivity]].
    split; [exact Hok | split; [exact Hfs | split; [exact Hcat | exact Hpart]]]. }
  cbv zeta.
  set (q' := drop (length (b :: data)) (l_queue l)) in *.
  destruct (receive_ok (l_acc l) (b :: data) Hok Hfit) as [Hok1 Hpend1].
  assert (Hcat1 : pending (receive (l_acc l) (b :: data)) ++ q' = concat fs)
    by (rewrite Hpend1, <- app_assoc, <- Hsplit; exact Hcat).
  destruct (split_frames fs _ _ Hcat1) as (gs & fs' & p & -> & Hp1 & Hp2 & Hp3).
  apply Forall_app in Hfs as [Hgs Hfs'].
  pose proof (packet_loop_frames e src gs Hgs p
    (Z.to_nat (a_len (receive (l_acc l) (b :: data))))
    (receive (l_acc l) (b :: data)) nw Hok1 Hp1
    (partial_tail_ok p q' fs' Hfs' Hp2 Hp3) (Nat.le_refl _)) as (H1 & H2 & H3).
  destruct (packet_loop _ _ _ _ _) as [[a2 nw2] evs2]. cbn [fst snd] in *.
  exists gs, fs'. split; [reflexivity | split; [| exact H3]].
  unfold in_frames; cbn [l_acc l_queue]. rewrite H2. auto.
Qed.

Lemma feed_frames (e : env) (src : endpoint) (ks : list nat) :
  forall (l : lane) (nw : nat) (fs : list (list byte)),
  in_frames l fs ->
  exists gs fs',
    fs = gs ++ fs' /\
    in_frames (fst (fst (feed e src ks l nw))) fs' /\
    packets_of src (snd (feed e src ks l nw)) = map (pair false) gs.
Proof.
  induction ks as [| k ks IH]; intros l nw fs Hin; cbn [feed].
  - exists [], fs. cbn [fst snd app].
    split; [reflexivity | split; [exact Hin | reflexivity]].
  - destruct (pump_frames e src k l nw fs Hin) as (gs1 & fs1 & -> & Hin1 & Hev1).
    destruct (pump e src (ReadUpTo k) l nw) as [[l1 nw1] evs1].
    cbn [fst snd] in *.
    destruct (IH l1 nw1 fs1 Hin1) as (gs2 & fs2 & -> & Hin2 & Hev2).
    destruct (feed e src ks l1 nw1) as [[l2 nw2] evs2]. cbn [fst snd] in *.
    exists (gs1 ++ gs2), fs2. split; [apply app_assoc | split; [exact Hin2 |]].
    rewrite packets_of_app, Hev1, Hev2, map_app. reflexivity.
Qed.

(** Once the source is drained inside a run of frames, every frame has
    been taken. *)
Lemma in_frames_drained (l : lane) (fs : list (list byte)) :
  in_frames l fs -> l_queue l = [] -> fs = [] /\ a_len (l_acc l) = 0.
Proof.
  intros (Hok & Hfs & Hcat & Hpart) Hq. rewrite Hq, app_nil_r in Hcat.
  pose proof (pending_length _ Hok) as Hlen.
  destruct fs as [| f fs]; simpl in *.
  - rewrite Hpart in Hlen. simpl in Hlen. destruct Hok. split; [reflexivity | lia].
  - rewrite Hcat, length_app in Hpart. lia.
Qed.

Lemma in_frames_init (junk : list byte) (fs : list (list byte)) :
  Forall sized_frame fs ->
  in_frames (Lane (Accum (stack_array junk) 0) (concat fs)) fs.
Proof.
  intros Hfs. unfold in_frames, acc_ok, pending; cbn [l_acc l_queue a_buf a_len].
  repeat split; auto.
  - apply stack_array_length.
  - unfold BUF_SIZE. lia.
  - unfold BUF_SIZE. lia.
  - destruct Hfs as [| f fs Hf _]; [reflexivity |].
    destruct Hf; simpl; lia.
Qed.

(** ** Schedules that deliver *)

Lemma pump_queue_drop (e : env) (src : endpoint) (k : nat) (l : lane)
    (nw : nat) :
  l_queue (fst (fst (pump e src (ReadUpTo k) l nw))) =
    drop (length (read_data (l_acc l) k (l_queue l))) (l_queue l).
Proof.
  rewrite pump_read. destruct (read_data _ _ _) as [| b data]; [reflexivity |].
  cbv zeta. destruct (packet_loop _ _ _ _ _) as [[a2 nw2] evs2]. reflexivity.
Qed.

Lemma read_progress (l : lane) (fs : list (list byte)) (k : nat) :
  in_frames l fs ->
  frames_fit fs ->
  (1 <= k)%nat ->
  l_queue l <> [] ->
  (1 <= length (read_data (l_acc l) k (l_queue l)))%nat.
Proof.
  intros (Hok & Hfs & Hcat & Hpart) Hfit Hk Hq.
  pose proof (pending_length _ Hok) as Hpl.
  assert (Hroom : a_len (l_acc l) < BUF_SIZE).
  { destruct fs as [| f fs]; simpl in *.
    - rewrite Hpart in Hcat. simpl in Hcat. contradiction.
    - inversion Hfit; subst. destruct Hok. lia. }
  unfold read_data. rewrite length_take.
  destruct (l_queue l) as [| b q]; [contradiction |]. simpl length. lia.
Qed.

Lemma feed_delivers (e : env) (src : endpoint) (ks : list nat) :
  forall (l : lane) (nw : nat) (fs : list (list byte)),
  in_frames l fs ->
  frames_fit fs ->
  Forall (fun k => (1 <= k)%nat) ks ->
  (length (l_queue l) <= length ks)%nat ->
  delivers e src ks l nw.
Proof.
  unfold delivers.
  induction ks as [| k ks IH]; intros l nw fs Hin Hfit Hks Hlen; cbn [feed].
  - cbn [fst snd]. simpl in Hlen.
    destruct (l_queue l); [reflexivity | simpl in Hlen; lia].
  - inversion Hks as [| ? ? Hk Hks']; subst.
    assert (Hless : (length (l_queue (fst (fst (pump e src (ReadUpTo k) l nw))))
                     <= length ks)%nat).
    { rewrite pump_queue_drop, length_drop. simpl in Hlen.
      destruct (l_queue l) as [| b q] eqn:Hq; [simpl; lia |].
      pose proof (read_progress l fs k Hin Hfit Hk) as Hp.
      rewrite Hq in Hp. specialize (Hp ltac:(discriminate)).
      simpl length in *. lia. }
    destruct (pump_frames e src k l nw fs Hin) as (gs1 & fs1 & Hfs & Hin1 & _).
    destruct (pump e src (ReadUpTo k) l nw) as [[l1 nw1] evs1].
    cbn [fst snd] in *.
    assert (Hfit1 : frames_fit fs1).
    { unfold frames_fit in *. rewrite Hfs in Hfit.
      apply Forall_app in Hfit as [_ H]. exact H. }
    specialize (IH l1 nw1 fs1 Hin1 Hfit1 Hks' Hless).
    destruct (feed e src ks l1 nw1) as [[l2 nw2] evs2]. exact IH.
Qed.

Lemma one_read_delivers (e : env) (src : endpoint) (buf q : list byte)
    (nw : nat) :
  Z.of_nat (length q) <= BUF_SIZE ->
  delivers e src [length q] (Lane (Accum buf 0) q) nw.
Proof.
  intros Hq. unfold delivers. cbn [feed].
  pose proof (pump_queue_drop e src (length q) (Lane (Accum buf 0) q) nw) as Hd.
  destruct (pump e src (ReadUpTo (length q)) _ nw) as [[l1 nw1] evs1].
  cbn [fst snd l_acc l_queue] in *. rewrite Hd. unfold read_data.
  cbn [a_len]. rewrite Z.sub_0_r, Nat.min_l by lia.
  rewrite firstn_all. apply drop_all.
Qed.

(** C1, as the code has it: take any sequence of complete Command,
    ACL-Data, SCO-Data and Event frames, queued on the source of a
    direction whose buffer is empty.  Every schedule of reads that takes
    the whole sequence makes the packet loop extract exactly these frames,
    in order, each with its own bytes, and leaves nothing pending; so any
    two such schedules extract the identical sequence.  One read of the
    whole sequence is such a schedule when the sequence fits the buffer,
    and so is every schedule of at least as many non-empty reads as there
    are bytes (single-byte reads among them) when each frame fits the
    buffer. *)
Theorem chunk_independence (e e' : env) (src : endpoint) (junk : list byte)
    (fs : list (list byte)) (ks ks' : list nat) (nw nw' : nat) :
  Forall sized_frame fs ->
  let l0 := Lane (Accum (stack_array junk) 0) (concat fs) in
  (delivers e src ks l0 nw ->
     packets_of src (snd (feed e src ks l0 nw)) = map (pair false) fs /\
     a_len (l_acc (fst (fst (feed e src ks l0 nw)))) = 0) /\
  (delivers e src ks l0 nw -> delivers e' src ks' l0 nw' ->
     packets_of src (snd (feed e' src ks' l0 nw')) =
     packets_of src (snd (feed e src ks l0 nw))) /\
  (Z.of_nat (length (concat fs)) <= BUF_SIZE ->
     delivers e src [length (concat fs)] l0 nw) /\
  (frames_fit fs -> Forall (fun k => (1 <= k)%nat) ks ->
     (length (concat fs) <= length ks)%nat ->
     delivers e src ks l0 nw).
Proof.
  intros Hfs l0.
  pose proof (in_frames_init junk fs Hfs) as Hin. fold l0 in Hin.
  assert (Hall : forall e1 ks1 nw1, delivers e1 src ks1 l0 nw1 ->
            packets_of src (snd (feed e1 src ks1 l0 nw1)) = map (pair false) fs /\
            a_len (l_acc (fst (fst (feed e1 src ks1 l0 nw1)))) = 0).
  { intros e1 ks1 nw1 Hdel.
    destruct (feed_frames e1 src ks1 l0 nw1 fs Hin) as (gs & fs' & Heq & Hin' & Hev).
    destruct (in_frames_drained _ _ Hin' Hdel) as [-> Hlen].
    rewrite app_nil_r in Heq. subst gs. split; assumption. }
  split; [apply Hall | split; [| split]].
  - intros H1 H2. destruct (Hall e ks nw H1) as [-> _].
    destruct (Hall e' ks' nw' H2) as [-> _]. reflexivity.
  - intros Hlen. apply one_read_delivers. exact Hlen.
  - intros Hfit Hks Hlen. apply (feed_delivers e src ks l0 nw fs Hin Hfit Hks).
    exact Hlen.
Qed.

(** * Concrete runs *)

Lemma empty_acc_ok : acc_ok empty_acc.
Proof. split; [reflexivity | unfold BUF_SIZE; simpl; lia]. Defined.

(** The end-to-end scenario of the specification: an event arriving
    from the chip in reads of 3 and 4 bytes is extracted once, written
    whole to /dev/vhci, and nothing is left pending. *)
Example event_in_two_reads :
  let e := quiet_env [] event_frame [ready 0 3; ready 0 4; cancelled] in
  main e = Some (0, [EvPacket STPBT false event_frame;
                     EvWrite VHCI event_frame 7;
                     EvClose STPBT; EvClose VHCI]).
Proof. vm_compute. reflexivity. Qed.

(** The same vendor bytes on both sides: dropped on the way to the
    chip, written out on the way to the host. *)
Example vendor_both_ways :
  let e := quiet_env vendor_bytes vendor_bytes [ready 4 4; cancelled] in
  main e = Some (0, [EvPacket VHCI true vendor_bytes;
                     EvPacket STPBT true vendor_bytes;
                     EvWrite VHCI vendor_bytes 4;
                     EvClose STPBT; EvClose VHCI]).
Proof. vm_compute. reflexivity. Qed.

(** C1 fails for vendor packets: read at once the four bytes are one
    packet, read byte by byte the first two are a packet and the rest is
    taken for the start of an ACL packet. *)
Lemma chunk_independence_vendor :
  let e := quiet_env [] [] [] in
  let l0 := Lane empty_acc (concat [vendor_bytes]) in
  Forall spec_frame [vendor_bytes] /\
  delivers e VHCI [4%nat] l0 0 /\
  delivers e VHCI [1%nat; 1%nat; 1%nat; 1%nat] l0 0 /\
  packets_of VHCI (snd (feed e VHCI [4%nat] l0 0)) = [(true, vendor_bytes)] /\
  packets_of VHCI (snd (feed e VHCI [1%nat; 1%nat; 1%nat; 1%nat] l0 0)) =
    [(true, [xff; x01])] /\
  packets_of VHCI (snd (feed e VHCI [1%nat; 1%nat; 1%nat; 1%nat] l0 0)) <>
  packets_of VHCI (snd (feed e VHCI [4%nat] l0 0)).
Proof.
  cbv zeta. repeat split.
  - constructor; [| constructor]. right. constructor.
  - vm_compute. discriminate.
Qed.

Lemma chunk_independence_witness :
  let e := quiet_env [] [] [] in
  let e' := short_env [] [] [] in
  let fs := [event_frame; command_frame] in
  let l0 := Lane (Accum (stack_array []) 0) (concat fs) in
  Forall sized_frame fs /\
  delivers e STPBT [3%nat; 4%nat; 1%nat; 5%nat] l0 0 /\
  delivers e' STPBT [13%nat] l0 0 /\
  packets_of STPBT (snd (feed e' STPBT [13%nat] l0 0)) =
  packets_of STPBT (snd (feed e STPBT [3%nat; 4%nat; 1%nat; 5%nat] l0 0)).
Proof.
  cbv zeta.
  assert (Hfs : Forall sized_frame [event_frame; command_frame]).
  { constructor; [apply frame_event; reflexivity |].
    constructor; [apply frame_command; reflexivity | constructor]. }
  assert (H1 : delivers (quiet_env [] [] []) STPBT [3%nat; 4%nat; 1%nat; 5%nat]
                 (Lane (Accum (stack_array []) 0)
                    (concat [event_frame; command_frame])) 0)
    by (vm_compute; reflexivity).
  assert (H2 : delivers (short_env [] [] []) STPBT [13%nat]
                 (Lane (Accum (stack_array []) 0)
                    (concat [event_frame; command_frame])) 0)
    by (vm_compute; reflexivity).
  split; [exact Hfs | split; [exact H1 | split; [exact H2 |]]].
  exact (proj1 (proj2 (chunk_independence (quiet_env [] [] []) (short_env [] [] [])
    STPBT [] [event_frame; command_frame] [3%nat; 4%nat; 1%nat; 5%nat] [13%nat] 0 0 Hfs))
    H1 H2).
Defined.

Lemma accumulator_invariant_witness :
  acc_ok empty_acc /\
  acc_ok (l_acc (fst (fst (pump (quiet_env [] [] []) STPBT (ReadUpTo 3)
                             (Lane empty_acc event_frame) 0)))).
Proof.
  split; [exact empty_acc_ok |].
  exact (proj2 (proj2 (proj2 (accumulator_invariant (quiet_env [] [] []) STPBT)
    empty_acc empty_acc_ok)) (ReadUpTo 3) event_frame 0%nat).
Defined.

Lemma vendor_minimum_length_witness :
  rd [xff] 0 = HCI_VHCI_PKT /\
  get_packet_len [xff] 1 = PktLen 0 true [] /\
  packet_loop (quiet_env [] [] []) VHCI 1 (Accum [xff] 1) 0 =
    (Accum [xff] 1, 0%nat, []).
Proof.
  assert (H : rd (a_buf (Accum [xff] 1)) 0 = HCI_VHCI_PKT) by reflexivity.
  split; [exact H | split].
  - exact (proj1 (vendor_minimum_length (quiet_env [] [] []) VHCI
      (Accum [xff] 1) 0 1 H)).
  - exact (proj2 (proj2 (vendor_minimum_length (quiet_env [] [] []) VHCI
      (Accum [xff] 1) 0 1 H)) eq_refl).
Defined.

(** C4 fails: the unknown tag 0x05 from the chip is reported, and the
    loop is still running afterwards, forwarding a command to the chip
    and reporting the same byte once more. *)
Lemma invalid_type_keeps_running :
  let e := quiet_env command_frame (x05 :: event_frame) [ready 0 1; ready 6 7] in
  pl_ret (get_packet_len [x05] 1) = -1 /\
  main e = None /\
  exists s,
    main_loop e (script e) (init_bridge e) = Continue s /\
    b_out s = [EvUnknownType 5;
               EvPacket VHCI false command_frame;
               EvWrite STPBT command_frame 6;
               EvUnknownType 5].
Proof.
  cbv zeta. split; [reflexivity | split; [vm_compute; reflexivity |]].
  eexists. split; vm_compute; reflexivity.
Qed.

Lemma stuck_acc_stuck : stuck stuck_acc.
Proof.
  split; [| split].
  - apply (proj1 (receive_ok empty_acc [x05] empty_acc_ok ltac:(vm_compute; discriminate))).
  - unfold stuck_acc, receive, BUF_SIZE; simpl; lia.
  - vm_compute. reflexivity.
Defined.

Lemma invalid_type_handling_witness :
  stuck stuck_acc /\
  forall fd,
    packets_of fd (snd (feed (quiet_env [] [] []) STPBT [3%nat; 4%nat]
                          (Lane stuck_acc event_frame) 0)) = [] /\
    writes_to fd (snd (feed (quiet_env [] [] []) STPBT [3%nat; 4%nat]
                         (Lane stuck_acc event_frame) 0)) = [].
Proof.
  split; [exact stuck_acc_stuck |].
  exact (proj1 (proj2 (proj2 (invalid_type_handling (quiet_env [] [] []) STPBT
    (Lane stuck_acc event_frame) 0 [3%nat; 4%nat]
    (init_bridge (quiet_env [] [] [])) true true (ReadUpTo 0) (ReadUpTo 0)
    stuck_acc_stuck)))).
Defined.

(** C5 fails: an ACL packet that never completes fills the buffer to
    4095 bytes, then to 4096 with one more; nothing is reported, the
    third read takes nothing, and the loop is still running with 909
    bytes left in the kernel. *)
Lemma overflow_not_reported :
  let e := quiet_env flood [] [ready 4095 0; ready 1 0; ready 1 0] in
  main e = None /\
  exists s1 s,
    main_loop e [ready 4095 0] (init_bridge e) = Continue s1 /\
    a_len (l_acc (b_vhci s1)) = BUF_SIZE - 1 /\
    main_loop e (script e) (init_bridge e) = Continue s /\
    a_len (l_acc (b_vhci s)) = BUF_SIZE /\
    length (l_queue (b_vhci s)) = 909%nat /\
    b_out s = [].
Proof.
  cbv zeta. split; [vm_compute; reflexivity |].
  eexists. eexists.
  split; [vm_compute; reflexivity |].
  split; [vm_compute; reflexivity |].
  split; [vm_compute; reflexivity |].
  split; [vm_compute; reflexivity |].
  split; vm_compute; reflexivity.
Qed.

Lemma full_buffer_handling_witness :
  acc_ok empty_acc /\
  acc_ok (l_acc (fst (fst (pump (quiet_env [] [] []) VHCI (ReadUpTo 4095)
                             (Lane empty_acc flood) 0)))).
Proof.
  split; [exact empty_acc_ok |].
  exact (proj1 (full_buffer_handling (quiet_env [] [] []) VHCI (ReadUpTo 4095)
    1 (Lane empty_acc flood) 0 (init_bridge (quiet_env [] [] [])) true true
    (ReadUpTo 0) (ReadUpTo 0) empty_acc_ok)).
Defined.

(** C6 fails: both writes come back one byte short; each time [perror]
    is called, the packet is dropped from the buffer, and the loop is
    still running. *)
Lemma short_write_not_fatal :
  let e := short_env [] (event_frame ++ event_frame) [ready 0 14] in
  main e = None /\
  exists s,
    main_loop e (script e) (init_bridge e) = Continue s /\
    a_len (l_acc (b_stpbt s)) = 0 /\
    b_out s = [EvPacket STPBT false event_frame;
               EvWrite VHCI event_frame 6;
               EvPerror "write to vhci";
               EvPacket STPBT false event_frame;
               EvWrite VHCI event_frame 6;
               EvPerror "write to vhci"].
Proof.
  cbv zeta. split; [vm_compute; reflexivity |].
  eexists. split; [vm_compute; reflexivity |].
  split; vm_compute; reflexivity.
Qed.

Lemma short_write_handling_witness :
  write_ret (short_env [] [] []) 0 (other STPBT) 7 <> 7 /\
  forward (short_env [] [] []) STPBT false event_frame 7 0 =
    (1%nat, [EvWrite VHCI event_frame 6; EvPerror "write to vhci"]).
Proof.
  assert (H : write_ret (short_env [] [] []) 0 (other STPBT) 7 <> 7)
    by (simpl; lia).
  split; [exact H |].
  exact (proj1 (short_write_handling (short_env [] [] []) (quiet_env [] [] [])
    STPBT event_frame 7 0 (ReadUpTo 0) (Lane empty_acc [])
    (init_bridge (quiet_env [] [] [])) true true (ReadUpTo 0) (ReadUpTo 0) H)).
Defined.

(** C7 fails: [read] on /dev/vhci fails with an errno other than
    EAGAIN; [perror] is called and the loop is still running, forwarding
    the next event from the chip. *)
Lemma read_error_not_fatal :
  let e := quiet_env [] event_frame
             [Tick true (SelectReady true false) (ReadFail (EOTHER 5)) (ReadUpTo 0);
              ready 0 7] in
  main e = None /\
  exists s,
    main_loop e (script e) (init_bridge e) = Continue s /\
    b_out s = [EvPerror "read from vhci";
               EvPacket STPBT false event_frame;
               EvWrite VHCI event_frame 7].
Proof.
  cbv zeta. split; [vm_compute; reflexivity |].
  eexists. split; vm_compute; reflexivity.
Qed.

(** C8 fails: [select] fails with an errno other than EINTR while
    [running] is still set; the loop ends on this error and the exit
    status is 0. *)
Lemma exit_zero_after_select_failure :
  let e := quiet_env [] []
             [Tick true (SelectFail (EOTHER 9)) (ReadUpTo 0) (ReadUpTo 0)] in
  forallb t_running (script e) = true /\
  main e = Some (0, [EvPerror "select"; EvClose STPBT; EvClose VHCI]).
Proof. cbv zeta. split; vm_compute; reflexivity. Qed.

Lemma exit_status_witness :
  let e := quiet_env [] [] [ready 0 0; cancelled] in
  started e = true /\
  existsb leaves_loop (script e) = true /\
  exists tr, main e = Some (0, tr ++ [EvClose STPBT; EvClose VHCI]).
Proof.
  cbv zeta. split; [reflexivity | split; [reflexivity |]].
  exact (proj1 (proj2 (exit_status (quiet_env [] [] [ready 0 0; cancelled])))
    eq_refl eq_refl).
Defined.


(** * Further properties *)

(** ** The resolver on its own *)

(** X1: [get_packet_len] never looks at or beyond [buf + len]: two
    buffers with the same first [len] bytes give the same result, log
    included. *)
Theorem get_packet_len_reads_below_len (buf buf' : list byte) (len : Z) :
  take (Z.to_nat len) buf = take (Z.to_nat len) buf' ->
  get_packet_len buf len = get_packet_len buf' len.
Proof.
  intros H. rewrite <- (get_packet_len_take buf), <- (get_packet_len_take buf').
  rewrite H. reflexivity.
Qed.

Lemma get_packet_len_reads_below_len_witness :
  get_packet_len [x04; x0e; x01; xaa; x01; x02] 4 =
  get_packet_len [x04; x0e; x01; xaa; xff] 4.
Proof.
  apply (get_packet_len_reads_below_len [x04; x0e; x01; xaa; x01; x02]
           [x04; x0e; x01; xaa; xff] 4).
  reflexivity.
Defined.

Lemma type_of_tag_cases (t : Z) :
  (t = 1 /\ type_of_tag t = Some Command) \/
  (t = 2 /\ type_of_tag t = Some ACLData) \/
  (t = 3 /\ type_of_tag t = Some SCOData) \/
  (t = 4 /\ type_of_tag t = Some Event) \/
  (t = 255 /\ type_of_tag t = Some Vendor) \/
  type_of_tag t = None.
Proof.
  unfold type_of_tag.
  destruct (t =? 1) eqn:E1; [apply Z.eqb_eq in E1; auto |].
  destruct (t =? 2) eqn:E2; [apply Z.eqb_eq in E2; auto |].
  destruct (t =? 3) eqn:E3; [apply Z.eqb_eq in E3; auto 6 |].
  destruct (t =? 4) eqn:E4; [apply Z.eqb_eq in E4; auto 6 |].
  destruct (t =? 255) eqn:E5; [apply Z.eqb_eq in E5; auto 7 | auto 7].
Qed.

Lemma get_packet_len_vendor (buf : list byte) (len : Z) :
  type_of_tag (rd buf 0) = Some Vendor ->
  2 <= len ->
  get_packet_len buf len = PktLen len true [].
Proof.
  intros Hty Hlen.
  destruct (type_of_tag_cases (rd buf 0))
    as [[_ H] | [[_ H] | [[_ H] | [[_ H] | [[Ht _] | H]]]]]; try congruence.
  unfold get_packet_len. rewrite Ht. simpl.
  assert ((len <? 1) = false) as -> by lia.
  assert ((len <? 2) = false) as -> by lia. reflexivity.
Qed.

(** How the three kinds of result come about. *)
Lemma get_packet_len_kinds (buf : list byte) (len : Z) :
  (len < 1 /\ get_packet_len buf len = PktLen 0 false []) \/
  (1 <= len /\ type_of_tag (rd buf 0) = None /\
   get_packet_len buf len = PktLen (-1) false [EvUnknownType (rd buf 0)]) \/
  (exists ty, 1 <= len < min_header ty /\ type_of_tag (rd buf 0) = Some ty /\
     pl_ret (get_packet_len buf len) = 0 /\ pl_log (get_packet_len buf len) = []) \/
  (exists ty, min_header ty <= len /\ type_of_tag (rd buf 0) = Some ty /\
     0 < pl_ret (get_packet_len buf len) /\ pl_log (get_packet_len buf len) = []).
Proof.
  destruct (Z.lt_ge_cases len 1) as [Hlt | Hge].
  { left. split; [exact Hlt |]. unfold get_packet_len.
    assert ((len <? 1) = true) as -> by lia. reflexivity. }
  right. destruct (type_of_tag (rd buf 0)) as [ty |] eqn:Hty.
  - right. destruct (Z.lt_ge_cases len (min_header ty)) as [Hs | Hl].
    + left. exists ty. destruct (get_packet_len_short buf len ty Hty Hs).
      repeat split; auto.
    + right. exists ty. split; [exact Hl | split; [reflexivity |]].
      destruct ty.
      * rewrite (get_packet_len_known buf len Command Hty) by (auto; discriminate).
        pose proof (rd_range buf 3). simpl. split; [lia | reflexivity].
      * rewrite (get_packet_len_known buf len ACLData Hty) by (auto; discriminate).
        pose proof (rd_range buf 3). pose proof (rd_range buf 4).
        unfold table_length, le16. simpl. split; [lia | reflexivity].
      * rewrite (get_packet_len_known buf len SCOData Hty) by (auto; discriminate).
        pose proof (rd_range buf 3). simpl. split; [lia | reflexivity].
      * rewrite (get_packet_len_known buf len Event Hty) by (auto; discriminate).
        pose proof (rd_range buf 2). simpl. split; [lia | reflexivity].
      * simpl in Hl. rewrite (get_packet_len_vendor buf len Hty Hl).
        simpl. split; [lia | reflexivity].
  - left. split; [exact Hge | split; [reflexivity |]].
    apply get_packet_len_invalid; assumption.
Qed.

(** X2: the three kinds of result of [get_packet_len].  It returns -1
    exactly when there is at least one byte and its tag is unknown, and
    exactly then it prints something; it returns 0 exactly when there is
    no byte or fewer bytes than the header of the tag's type needs; in
    every other case the result is positive.  For a non-negative [len] the
    result lies between -1 and the larger of [len] and 65540, well inside
    an [int]. *)
Theorem get_packet_len_result (buf : list byte) (len : Z) :
  let r := get_packet_len buf len in
  (pl_ret r = -1 <-> 1 <= len /\ type_of_tag (rd buf 0) = None) /\
  (pl_log r <> [] <-> pl_ret r = -1) /\
  (pl_ret r = 0 <->
     len < 1 \/ exists ty, type_of_tag (rd buf 0) = Some ty /\ len < min_header ty) /\
  (pl_ret r = -1 \/ pl_ret r = 0 \/ 0 < pl_ret r) /\
  (0 <= len -> -1 <= pl_ret r <= Z.max len 65540).
Proof.
  cbv zeta.
  pose proof (get_packet_len_bounds buf len) as Hb.
  destruct (get_packet_len_kinds buf len)
    as [[Hl Hr] | [(Hl & Hty & Hr) | [(ty & Hl & Hty & Hr & Hg)
                                     | (ty & Hl & Hty & Hr & Hg)]]].
  - rewrite Hr in *. simpl in *.
    repeat split; intros; try lia; try congruence; auto.
  - rewrite Hr in *. simpl in *.
    repeat split; intros; try lia; try congruence; auto.
    match goal with H : _ \/ _ |- _ => destruct H as [H | (ty & H & _)] end;
      [lia | congruence].
  - assert (Hmh : 2 <= min_header ty) by (destruct ty; simpl; lia).
    rewrite Hr, Hg in *.
    repeat split; intros; try lia; try congruence; auto.
    + match goal with H : _ /\ _ |- _ => destruct H; congruence end.
    + right. exists ty. split; [exact Hty | lia].
  - assert (Hmh : 2 <= min_header ty) by (destruct ty; simpl; lia).
    rewrite Hg in *.
    repeat split; intros; try lia; try congruence; auto.
    + match goal with H : _ /\ _ |- _ => destruct H; congruence end.
    + match goal with H : _ \/ _ |- _ => destruct H as [H | (ty' & H & Hlt)] end;
        [lia |].
      assert (ty' = ty) by congruence. subst. lia.
Qed.

(** X3: the length round trip.  On a buffer that holds a complete frame
    of one of the four length-prefixed types, whatever follows it,
    [get_packet_len] returns the length of that frame; on a proper,
    non-empty start of such a frame it returns 0, or the length of the
    whole frame, which is more than is there: never a boundary inside the
    frame. *)
Theorem get_packet_len_frame_boundary (f rest : list byte) :
  sized_frame f ->
  get_packet_len (f ++ rest) (Z.of_nat (length (f ++ rest))) =
    PktLen (Z.of_nat (length f)) false [] /\
  (forall p s, f = p ++ s -> p <> [] -> s <> [] ->
     let r := get_packet_len p (Z.of_nat (length p)) in
     pl_log r = [] /\ pl_internal r = false /\
     (pl_ret r = 0 \/ pl_ret r = Z.of_nat (length f))).
Proof.
  intros Hf. split.
  - destruct (sized_frame_type f Hf) as (ty & Hnv & Hty & Hmin & Htab).
    assert (Hmh : 2 <= min_header ty) by (destruct ty; simpl; lia).
    destruct (get_packet_len_frame f (f ++ rest)
                (Z.of_nat (length (f ++ rest))) Hf) as (Hlog & Hint & Hret).
    { rewrite length_app. lia. }
    { intros i _ Hi. apply rd_app_l. lia. }
    destruct Hret as [[_ Hbad] | Hret]; [rewrite length_app in Hbad; lia |].
    destruct (get_packet_len (f ++ rest) _) as [ret int lg]. simpl in *.
    subst. reflexivity.
  - intros p s -> Hp Hs. cbv zeta.
    destruct (get_packet_len_frame (p ++ s) p (Z.of_nat (length p)) Hf)
      as (Hlog & Hint & Hret).
    { destruct p; [contradiction | simpl length; lia]. }
    { intros i Hi _. symmetry. apply rd_app_l. lia. }
    split; [exact Hlog | split; [exact Hint |]].
    destruct Hret as [[H _] | H]; auto.
Qed.

Lemma get_packet_len_frame_boundary_witness :
  sized_frame event_frame /\
  get_packet_len (event_frame ++ command_frame)
    (Z.of_nat (length (event_frame ++ command_frame))) = PktLen 7 false [].
Proof.
  assert (H : sized_frame event_frame) by (apply frame_event; reflexivity).
  split; [exact H |].
  exact (proj1 (get_packet_len_frame_boundary event_frame command_frame H)).
Defined.

Lemma get_packet_len_result_witness :
  -1 <= pl_ret (get_packet_len [x02; x00; x00; xff; xff] 5) <= Z.max 5 65540.
Proof.
  apply (proj2 (proj2 (proj2 (proj2
    (get_packet_len_result [x02; x00; x00; xff; xff] 5))))).
  lia.
Defined.

(** ** Properties of every trace *)

(** A property of traces that holds of the empty trace, of a [perror],
    of what one turn of the packet loop prints, and of two traces put
    together, holds of the trace of every run. *)
Section TraceInvariant.

Variable P : list event -> Prop.
Hypothesis P_nil : P [].
Hypothesis P_app : forall t1 t2, P t1 -> P t2 -> P (t1 ++ t2).
Hypothesis P_perror : forall m, P [EvPerror m].
Hypothesis P_body :
  forall e src a nw, acc_ok a -> P (fst (packet_body e src a nw)).

Lemma packet_loop_inv (e : env) (src : endpoint) (fuel : nat) :
  forall (a : accum) (nw : nat),
  acc_ok a -> P (snd (packet_loop e src fuel a nw)).
Proof.
  induction fuel as [| fuel IH]; intros a nw Hok; cbn [packet_loop];
    [exact P_nil |].
  destruct (a_len a >? 0); [| exact P_nil].
  pose proof (P_body e src a nw Hok) as Hb.
  destruct (packet_body e src a nw) as [evs [[a' nw'] |]] eqn:Hbody;
    [| exact Hb].
  destruct (packet_body_some e src a a' nw nw' evs Hok Hbody) as (Hp & Ha & _).
  assert (Hok' : acc_ok a') by (subst a'; apply remove_packet_ok; assumption).
  specialize (IH a' nw' Hok').
  destruct (packet_loop e src fuel a' nw') as [[a2 nw2] evs2].
  apply P_app; assumption.
Qed.

Lemma pump_inv (e : env) (src : endpoint) (r : read_result) (l : lane)
    (nw : nat) :
  acc_ok (l_acc l) -> P (snd (pump e src r l nw)).
Proof.
  intros Hok. destruct r as [k | er].
  - rewrite pump_read.
    pose proof (read_data_fits (l_acc l) k (l_queue l) Hok) as Hfit.
    destruct (read_data _ _ _) as [| b data]; [exact P_nil |]. cbv zeta.
    pose proof (packet_loop_inv e src
      (Z.to_nat (a_len (receive (l_acc l) (b :: data))))
      (receive (l_acc l) (b :: data)) nw
      (proj1 (receive_ok _ _ Hok Hfit))) as H.
    destruct (packet_loop _ _ _ _ _) as [[a2 nw2] evs2]. exact H.
  - destruct er; simpl; try exact P_nil; apply P_perror.
Qed.

Lemma iteration_inv (e : env) (t : tick) (s : bridge) :
  bridge_ok s -> P (b_out s) -> P (b_out (state_of (iteration e t s))).
Proof.
  intros Hok Hs. unfold iteration.
  destruct (negb (t_running t)); [exact Hs |].
  destruct (t_select t) as [er | | vs ss]; cbn [state_of].
  - destruct er; simpl; try exact Hs; (apply P_app; [exact Hs | apply P_perror]).
  - exact Hs.
  - assert (H1 : bridge_ok (if vs then pump_vhci e (t_vhci_read t) s else s) /\
                 P (b_out (if vs then pump_vhci e (t_vhci_read t) s else s))).
    { destruct vs; [| auto]. unfold pump_vhci.
      pose proof (pump_ok e VHCI (t_vhci_read t) (b_vhci s) (b_writes s)
                    (proj1 Hok)) as Ho.
      pose proof (pump_inv e VHCI (t_vhci_read t) (b_vhci s) (b_writes s)
                    (proj1 Hok)) as Hp.
      destruct (pump _ _ _ _ _) as [[l nw] evs].
      split; [split; [exact Ho | exact (proj2 Hok)] | apply P_app; assumption]. }
    set (s1 := if vs then pump_vhci e (t_vhci_read t) s else s) in *.
    destruct H1 as [Hok1 Hs1].
    destruct ss; [| exact Hs1]. unfold pump_stpbt.
    pose proof (pump_inv e STPBT (t_stpbt_read t) (b_stpbt s1) (b_writes s1)
                  (proj2 Hok1)) as Hp.
    destruct (pump _ _ _ _ _) as [[l nw] evs].
    apply P_app; assumption.
Qed.

Lemma main_loop_inv (e : env) (ts : list tick) :
  forall s, bridge_ok s -> P (b_out s) ->
  P (b_out (state_of (main_loop e ts s))).
Proof.
  induction ts as [| t ts IH]; intros s Hok Hs; cbn [main_loop];
    [exact Hs |].
  pose proof (iteration_inv e t s Hok Hs) as Hi.
  pose proof (iteration_ok e t s Hok) as Ho.
  destruct (iteration e t s) as [s' | s']; [apply IH |]; assumption.
Qed.

End TraceInvariant.

(** ** What gets extracted is a frame *)

Lemma byte_val_inj (a b : byte) : byte_val a = byte_val b -> a = b.
Proof.
  unfold byte_val. intros H. apply N2Z.inj in H.
  pose proof (Byte.of_to_N a) as Ha. rewrite H, Byte.of_to_N in Ha.
  congruence.
Qed.

Lemma take_Z_cons (n : Z) (b : byte) (l : list byte) :
  0 <= n -> take (Z.to_nat (1 + n)) (b :: l) = b :: take (Z.to_nat n) l.
Proof.
  intros Hn. replace (Z.to_nat (1 + n)) with (S (Z.to_nat n)) by lia.
  reflexivity.
Qed.

(** A positive result within the bytes at hand cuts off a frame. *)
Lemma extracted_frame (p : list byte) :
  let r := get_packet_len p (Z.of_nat (length p)) in
  0 < pl_ret r <= Z.of_nat (length p) ->
  if pl_internal r
  then vendor_frame p /\ pl_ret r = Z.of_nat (length p)
  else sized_frame (take (Z.to_nat (pl_ret r)) p).
Proof.
  cbv zeta. intros Hret.
  destruct (get_packet_len_kinds p (Z.of_nat (length p)))
    as [[_ Hr] | [(_ & _ & Hr) | [(ty & _ & _ & Hr & _)
                                 | (ty & Hl & Hty & _ & _)]]];
    try (rewrite Hr in Hret; simpl in Hret; lia).
  destruct (type_of_tag_cases (rd p 0))
    as [[Ht H] | [[Ht H] | [[Ht H] | [[Ht H] | [[Ht H] | H]]]]];
    try congruence;
    assert (ty = match rd p 0 with 1 => Command | 2 => ACLData | 3 => SCOData
                 | 4 => Event | _ => Vendor end) as Hty'
      by (rewrite Ht; congruence);
    rewrite Ht in Hty'; subst ty; simpl in Hl.
  - rewrite (get_packet_len_known p _ Command Hty) in * by (try discriminate; exact Hl).
    simpl in *.
    destruct p as [| b0 [| b1 [| b2 [| b3 rest]]]]; simpl length in *; try lia.
    unfold rd in *; simpl nth in *.
    assert (b0 = x01) as -> by (apply byte_val_inj; rewrite Ht; reflexivity).
    pose proof (byte_val_range b3) as Hb3.
    replace (4 + byte_val b3) with (1 + (1 + (1 + (1 + byte_val b3)))) by lia.
    rewrite !take_Z_cons by lia.
    apply frame_command. rewrite length_take. lia.
  - rewrite (get_packet_len_known p _ ACLData Hty) in * by (try discriminate; exact Hl).
    simpl in *.
    destruct p as [| b0 [| b1 [| b2 [| b3 [| b4 rest]]]]]; simpl length in *; try lia.
    unfold rd in *; simpl nth in *.
    assert (b0 = x02) as -> by (apply byte_val_inj; rewrite Ht; reflexivity).
    pose proof (byte_val_range b3) as Hb3. pose proof (byte_val_range b4) as Hb4.
    unfold le16 in *.
    replace (5 + (byte_val b3 + 256 * byte_val b4))
      with (1 + (1 + (1 + (1 + (1 + (byte_val b3 + 256 * byte_val b4)))))) by lia.
    rewrite !take_Z_cons by lia.
    apply frame_acl. unfold le16. rewrite length_take. lia.
  - rewrite (get_packet_len_known p _ SCOData Hty) in * by (try discriminate; exact Hl).
    simpl in *.
    destruct p as [| b0 [| b1 [| b2 [| b3 rest]]]]; simpl length in *; try lia.
    unfold rd in *; simpl nth in *.
    assert (b0 = x03) as -> by (apply byte_val_inj; rewrite Ht; reflexivity).
    pose proof (byte_val_range b3) as Hb3.
    replace (4 + byte_val b3) with (1 + (1 + (1 + (1 + byte_val b3)))) by lia.
    rewrite !take_Z_cons by lia.
    apply frame_sco. rewrite length_take. lia.
  - rewrite (get_packet_len_known p _ Event Hty) in * by (try discriminate; exact Hl).
    simpl in *.
    destruct p as [| b0 [| b1 [| b2 rest]]]; simpl length in *; try lia.
    unfold rd in *; simpl nth in *.
    assert (b0 = x04) as -> by (apply byte_val_inj; rewrite Ht; reflexivity).
    pose proof (byte_val_range b2) as Hb2.
    replace (3 + byte_val b2) with (1 + (1 + (1 + byte_val b2))) by lia.
    rewrite !take_Z_cons by lia.
    apply frame_event. rewrite length_take. lia.
  - rewrite (get_packet_len_vendor p _ Hty Hl). simpl.
    split; [| reflexivity].
    destruct p as [| b0 [| b1 rest]]; simpl length in *; try lia.
    unfold rd in *; simpl nth in *.
    assert (b0 = xff) as -> by (apply byte_val_inj; rewrite Ht; reflexivity).
    constructor.
Qed.

Lemma get_packet_len_log_packets (src : endpoint) (buf : list byte) (len : Z) :
  packets_of src (pl_log (get_packet_len buf len)) = [].
Proof.
  unfold get_packet_len.
  repeat match goal with
  | |- context [if ?c then _ else _] => destruct c
  end; reflexivity.
Qed.

Lemma packets_of_packet_any (src src' : endpoint) (i : bool) (pkt : list byte)
    (evs : list event) :
  packets_of src' (EvPacket src i pkt :: evs) = (i, pkt) :: packets_of src' evs \/
  packets_of src' (EvPacket src i pkt :: evs) = packets_of src' evs.
Proof. destruct src, src'; auto. Qed.

Lemma sound_nil : sound [].
Proof. intros src. constructor. Qed.

Lemma sound_app (t1 t2 : list event) : sound t1 -> sound t2 -> sound (t1 ++ t2).
Proof.
  intros H1 H2 src. rewrite packets_of_app. apply Forall_app. auto.
Qed.

Lemma sound_perror (m : string) : sound [EvPerror m].
Proof. intros src. constructor. Qed.

Lemma packet_body_none_log (e : env) (src : endpoint) (a : accum) (nw : nat)
    (evs : list event) :
  packet_body e src a nw = (evs, None) ->
  evs = pl_log (get_packet_len (a_buf a) (a_len a)).
Proof.
  unfold packet_body.
  destruct (pl_ret _ <=? 0); [intros [= <-]; reflexivity |].
  destruct (pl_ret _ >? a_len a); [intros [= <-]; reflexivity |].
  destruct (forward _ _ _ _ _ _). discriminate.
Qed.

Lemma packet_body_sound (e : env) (src : endpoint) (a : accum) (nw : nat) :
  acc_ok a -> sound (fst (packet_body e src a nw)).
Proof.
  intros Hok src'.
  destruct (packet_body e src a nw) as [evs [[a' nw'] |]] eqn:Hb.
  - destruct (packet_body_some e src a a' nw nw' evs Hok Hb) as (Hp & _ & -> & _).
    cbn [fst].
    pose proof (pending_length a Hok) as Hlen.
    assert (Hl : a_len a = Z.of_nat (length (pending a))) by (destruct Hok; lia).
    rewrite Hl in *.
    pose proof (extracted_frame (pending a) Hp) as Hfr.
    pose proof (get_packet_len_log_packets src' (pending a)
                  (Z.of_nat (length (pending a)))) as Hlog.
    set (r := get_packet_len (pending a) (Z.of_nat (length (pending a)))) in *.
    rewrite packets_of_app, Hlog. cbn [app].
    assert (Hrest : packets_of src' (snd (forward e src (pl_internal r)
              (take (Z.to_nat (pl_ret r)) (pending a)) (pl_ret r) nw)) = []).
    { unfold forward. destruct src, (pl_internal r), src'; cbn [snd];
        try destruct (write_ret e nw _ (pl_ret r) =? pl_ret r); reflexivity. }
    assert (Hpk : packet_ok (pl_internal r, take (Z.to_nat (pl_ret r)) (pending a))).
    { split; cbn [fst snd].
      - destruct (pl_internal r); [| exact Hfr].
        destruct Hfr as [Hv Hr]. rewrite Hr, Nat2Z.id, firstn_all. exact Hv.
      - rewrite length_take. destruct Hok. lia. }
    destruct (packets_of_packet_any src src' (pl_internal r)
                (take (Z.to_nat (pl_ret r)) (pending a))
                (snd (forward e src (pl_internal r)
                   (take (Z.to_nat (pl_ret r)) (pending a)) (pl_ret r) nw)))
      as [-> | ->]; rewrite Hrest.
    + constructor; [exact Hpk | constructor].
    + constructor.
  - rewrite (packet_body_none_log e src a nw evs Hb). cbn [fst].
    rewrite get_packet_len_log_packets. constructor.
Qed.

Lemma main_loop_sound (e : env) (ts : list tick) :
  sound (b_out (state_of (main_loop e ts (init_bridge e)))).
Proof.
  apply (main_loop_inv sound sound_nil sound_app sound_perror packet_body_sound).
  - apply init_bridge_ok.
  - apply sound_nil.
Qed.

Lemma vendor_frame_is_vendor (p : list byte) : vendor_frame p -> is_vendor p = true.
Proof. intros [op payload]. reflexivity. Qed.

Lemma sized_frame_not_vendor (p : list byte) : sized_frame p -> is_vendor p = false.
Proof. intros [? ? ? ? ? | ? ? ? ? ? ? | ? ? ? ? ? | ? ? ? ?]; reflexivity. Qed.

Lemma packets_forwarded_sized (l : list (bool * list byte)) :
  Forall packet_ok l ->
  Forall (fun p => sized_frame p /\ Z.of_nat (length p) <= BUF_SIZE)
         (List.filter (fun p => negb (is_vendor p)) (map snd l)).
Proof.
  induction 1 as [| [i p] l [Hp Hlen] _ IH]; cbn [map List.filter snd];
    [constructor |].
  cbn [fst snd] in *. destruct i.
  - rewrite (vendor_frame_is_vendor p Hp). exact IH.
  - rewrite (sized_frame_not_vendor p Hp). cbn [negb].
    constructor; [split; assumption | exact IH].
Qed.

Lemma packets_forwarded_spec (l : list (bool * list byte)) :
  Forall packet_ok l ->
  Forall (fun p => spec_frame p /\ Z.of_nat (length p) <= BUF_SIZE) (map snd l).
Proof.
  induction 1 as [| [i p] l [Hp Hlen] _ IH]; cbn [map snd]; constructor; auto.
  cbn [fst snd] in *. split; [| exact Hlen].
  destruct i; [right | left]; exact Hp.
Qed.

(** X4: whatever arrives on the two endpoints, in whatever pieces,
    every packet the bridge extracts is a whole frame: a complete
    Command, ACL-Data, SCO-Data or Event frame whose length is the one its
    header declares, or, when marked internal, a vendor frame of at least
    two bytes; none is longer than the buffer.  So each [write] to
    /dev/stpbt carries exactly one complete length-prefixed frame, and
    each [write] to /dev/vhci one complete frame of the five types. *)
Theorem extraction_sound (e : env) (ts : list tick) :
  let tr := b_out (state_of (main_loop e ts (init_bridge e))) in
  (forall src, Forall packet_ok (packets_of src tr)) /\
  Forall (fun p => sized_frame p /\ Z.of_nat (length p) <= BUF_SIZE)
         (writes_to STPBT tr) /\
  Forall (fun p => spec_frame p /\ Z.of_nat (length p) <= BUF_SIZE)
         (writes_to VHCI tr).
Proof.
  cbv zeta.
  pose proof (main_loop_sound e ts) as Hs.
  pose proof (main_loop_policy e ts (init_bridge e) policy_nil) as [Hw1 Hw2].
  split; [exact Hs | split].
  - rewrite Hw1. apply packets_forwarded_sized, Hs.
  - rewrite Hw2. apply packets_forwarded_spec, Hs.
Qed.

Lemma extraction_sound_witness :
  let e := quiet_env vendor_bytes (event_frame ++ [x04]) [ready 4 8] in
  Forall packet_ok
    (packets_of STPBT (b_out (state_of (main_loop e (script e) (init_bridge e))))).
Proof.
  cbv zeta.
  apply (proj1 (extraction_sound
    (quiet_env vendor_bytes (event_frame ++ [x04]) [ready 4 8]) [ready 4 8])).
Defined.

(** ** Every byte is accounted for *)

Lemma packet_loop_other (e : env) (src : endpoint) (fuel : nat) :
  forall (a : accum) (nw : nat),
  packets_of (other src) (snd (packet_loop e src fuel a nw)) = [] /\
  writes_to src (snd (packet_loop e src fuel a nw)) = [].
Proof.
  induction fuel as [| fuel IH]; intros a nw; cbn [packet_loop];
    [split; reflexivity |].
  destruct (a_len a >? 0); [| split; reflexivity].
  assert (Hb : packets_of (other src) (fst (packet_body e src a nw)) = [] /\
               writes_to src (fst (packet_body e src a nw)) = []).
  { unfold packet_body.
    assert (Hlog : packets_of (other src)
                     (pl_log (get_packet_len (a_buf a) (a_len a))) = [] /\
                   writes_to src (pl_log (get_packet_len (a_buf a) (a_len a))) = []).
    { unfold get_packet_len.
      repeat match goal with
      | |- context [if ?c then _ else _] => destruct c
      end; split; reflexivity. }
    destruct (pl_ret _ <=? 0); [exact Hlog |].
    destruct (pl_ret _ >? a_len a); [exact Hlog |].
    destruct Hlog as [Hl1 Hl2].
    unfold forward.
    destruct src, (pl_internal _); cbn [fst snd];
      rewrite packets_of_app, writes_to_app, Hl1, Hl2;
      try destruct (write_ret e nw _ _ =? _); split; reflexivity. }
  destruct (packet_body e src a nw) as [evs [[a' nw'] |]]; [| exact Hb].
  specialize (IH a' nw').
  destruct (packet_loop e src fuel a' nw') as [[a2 nw2] evs2].
  cbn [fst snd] in *. rewrite packets_of_app, writes_to_app.
  destruct Hb as [-> ->], IH as [-> ->]. split; reflexivity.
Qed.

Lemma pump_other (e : env) (src : endpoint) (r : read_result) (l : lane)
    (nw : nat) :
  packets_of (other src) (snd (pump e src r l nw)) = [] /\
  writes_to src (snd (pump e src r l nw)) = [].
Proof.
  destruct r as [k | er].
  - rewrite pump_read. destruct (read_data _ _ _) as [| b data];
      [split; reflexivity |]. cbv zeta.
    pose proof (packet_loop_other e src
      (Z.to_nat (a_len (receive (l_acc l) (b :: data))))
      (receive (l_acc l) (b :: data)) nw) as H.
    destruct (packet_loop _ _ _ _ _) as [[a2 nw2] evs2]. exact H.
  - destruct er, src; split; reflexivity.
Qed.

Lemma packet_loop_conserved (e : env) (src : endpoint) (fuel : nat) :
  forall (a : accum) (nw : nat),
  acc_ok a ->
  pending a =
    concat (map snd (packets_of src (snd (packet_loop e src fuel a nw)))) ++
    pending (fst (fst (packet_loop e src fuel a nw))).
Proof.
  induction fuel as [| fuel IH]; intros a nw Hok; cbn [packet_loop];
    [reflexivity |].
  destruct (a_len a >? 0); [| reflexivity].
  destruct (packet_body e src a nw) as [evs [[a' nw'] |]] eqn:Hb.
  - destruct (packet_body_some e src a a' nw nw' evs Hok Hb) as (Hp & -> & -> & _).
    destruct (remove_packet_ok a _ Hok Hp) as (Hok' & _ & Hpend).
    specialize (IH _ nw' Hok').
    destruct (packet_loop e src fuel _ nw') as [[a2 nw2] evs2].
    cbn [fst snd] in *.
    rewrite !packets_of_app, get_packet_len_log_packets, packets_of_packet,
      forward_packet. cbn [app map snd concat].
    rewrite <- app_assoc, <- IH, Hpend. symmetry. apply take_drop.
  - cbn [fst snd].
    rewrite (packet_body_none_log e src a nw evs Hb), get_packet_len_log_packets.
    reflexivity.
Qed.

Lemma pump_conserved (e : env) (src : endpoint) (r : read_result) (l : lane)
    (nw : nat) :
  acc_ok (l_acc l) ->
  pending (l_acc l) ++ l_queue l =
    concat (map snd (packets_of src (snd (pump e src r l nw)))) ++
    pending (l_acc (fst (fst (pump e src r l nw)))) ++
    l_queue (fst (fst (pump e src r l nw))).
Proof.
  intros Hok. destruct r as [k | er].
  - rewrite pump_read.
    pose proof (read_data_fits (l_acc l) k (l_queue l) Hok) as Hfit.
    assert (Hsplit : l_queue l = read_data (l_acc l) k (l_queue l) ++
              drop (length (read_data (l_acc l) k (l_queue l))) (l_queue l))
      by (unfold read_data; apply take_drop_length).
    destruct (read_data _ _ _) as [| b data] eqn:Hd; [reflexivity |].
    cbv zeta.
    destruct (receive_ok (l_acc l) (b :: data) Hok Hfit) as [Hok1 Hpend1].
    pose proof (packet_loop_conserved e src
      (Z.to_nat (a_len (receive (l_acc l) (b :: data))))
      (receive (l_acc l) (b :: data)) nw Hok1) as H.
    destruct (packet_loop _ _ _ _ _) as [[a2 nw2] evs2].
    cbn [fst snd l_acc l_queue] in *.
    rewrite app_assoc, <- H, Hpend1, <- app_assoc, <- Hsplit. reflexivity.
  - destruct er, src; reflexivity.
Qed.

Lemma iteration_accounted (e e0 : env) (t : tick) (s : bridge) :
  bridge_ok s -> accounted e0 s -> accounted e0 (state_of (iteration e t s)).
Proof.
  intros Hok Hs. unfold iteration.
  destruct (negb (t_running t)); [exact Hs |].
  destruct (t_select t) as [er | | vs ss]; cbn [state_of].
  - destruct er; try exact Hs; unfold accounted, log in *;
      cbn [state_of b_out b_vhci b_stpbt];
      rewrite !packets_of_app; cbn [packets_of flat_map]; rewrite !app_nil_r;
      exact Hs.
  - exact Hs.
  - assert (H1 : bridge_ok (if vs then pump_vhci e (t_vhci_read t) s else s) /\
                 accounted e0 (if vs then pump_vhci e (t_vhci_read t) s else s)).
    { destruct vs; [| auto]. unfold pump_vhci.
      pose proof (pump_ok e VHCI (t_vhci_read t) (b_vhci s) (b_writes s)
                    (proj1 Hok)) as Ho.
      pose proof (pump_conserved e VHCI (t_vhci_read t) (b_vhci s) (b_writes s)
                    (proj1 Hok)) as Hc.
      pose proof (pump_other e VHCI (t_vhci_read t) (b_vhci s) (b_writes s))
        as [Hn _].
      destruct (pump _ _ _ _ _) as [[l nw] evs]. cbn [fst snd other] in *.
      split; [split; [exact Ho | exact (proj2 Hok)] |].
      destruct Hs as [Hv Hst]. unfold accounted; cbn [b_out b_vhci b_stpbt].
      rewrite !packets_of_app, Hn, app_nil_r, map_app, concat_app.
      split; [| exact Hst].
      rewrite <- app_assoc, <- Hc. exact Hv. }
    set (s1 := if vs then pump_vhci e (t_vhci_read t) s else s) in *.
    destruct H1 as [Hok1 Hs1].
    destruct ss; [| exact Hs1]. unfold pump_stpbt.
    pose proof (pump_conserved e STPBT (t_stpbt_read t) (b_stpbt s1) (b_writes s1)
                  (proj2 Hok1)) as Hc.
    pose proof (pump_other e STPBT (t_stpbt_read t) (b_stpbt s1) (b_writes s1))
      as [Hn _].
    destruct (pump _ _ _ _ _) as [[l nw] evs]. cbn [fst snd other] in *.
    destruct Hs1 as [Hv Hst]. unfold accounted; cbn [b_out b_vhci b_stpbt].
    rewrite !packets_of_app, Hn, app_nil_r, map_app, concat_app.
    split; [exact Hv |].
    rewrite <- app_assoc, <- Hc. exact Hst.
Qed.

Lemma main_loop_accounted (e e0 : env) (ts : list tick) :
  forall s, bridge_ok s -> accounted e0 s ->
  accounted e0 (state_of (main_loop e ts s)).
Proof.
  induction ts as [| t ts IH]; intros s Hok Hs; cbn [main_loop]; [exact Hs |].
  pose proof (iteration_accounted e e0 t s Hok Hs) as Hi.
  pose proof (iteration_ok e t s Hok) as Ho.
  destruct (iteration e t s) as [s' | s']; [apply IH |]; assumption.
Qed.

(** X5: no byte is lost, repeated or moved.  At every point of every
    run, the bytes an endpoint has delivered are, in order, the packets
    extracted from it so far, then the bytes pending in its buffer, then
    the bytes still queued in the kernel; and what has been written to
    /dev/vhci is, put together, a beginning of what /dev/stpbt
    delivered. *)
Theorem bytes_accounted (e : env) (ts : list tick) :
  let s := state_of (main_loop e ts (init_bridge e)) in
  rx_vhci e =
    concat (map snd (packets_of VHCI (b_out s))) ++
    pending (l_acc (b_vhci s)) ++ l_queue (b_vhci s) /\
  rx_stpbt e =
    concat (map snd (packets_of STPBT (b_out s))) ++
    pending (l_acc (b_stpbt s)) ++ l_queue (b_stpbt s) /\
  rx_stpbt e =
    concat (writes_to VHCI (b_out s)) ++
    pending (l_acc (b_stpbt s)) ++ l_queue (b_stpbt s).
Proof.
  cbv zeta.
  assert (H0 : accounted e (init_bridge e)) by (split; reflexivity).
  pose proof (main_loop_accounted e e ts (init_bridge e) (init_bridge_ok e) H0)
    as [Hv Hs].
  pose proof (main_loop_policy e ts (init_bridge e) policy_nil) as [_ Hw].
  split; [exact Hv | split; [exact Hs |]]. rewrite Hw. exact Hs.
Qed.

Lemma bytes_accounted_witness :
  let e := quiet_env vendor_bytes (event_frame ++ [x04]) [ready 3 8] in
  let s := state_of (main_loop e (script e) (init_bridge e)) in
  rx_stpbt e = concat (writes_to VHCI (b_out s)) ++
               pending (l_acc (b_stpbt s)) ++ l_queue (b_stpbt s).
Proof.
  cbv zeta.
  apply (proj2 (proj2 (bytes_accounted
    (quiet_env vendor_bytes (event_frame ++ [x04]) [ready 3 8]) [ready 3 8]))).
Defined.

(** ** Closing the endpoints *)

Lemma no_close_app (t1 t2 : list event) :
  no_close t1 -> no_close t2 -> no_close (t1 ++ t2).
Proof.
  unfold no_close, closes_of. intros H1 H2. rewrite flat_map_app, H1, H2.
  reflexivity.
Qed.

Lemma packet_body_no_close (e : env) (src : endpoint) (a : accum) (nw : nat) :
  acc_ok a -> no_close (fst (packet_body e src a nw)).
Proof.
  intros _. unfold packet_body.
  assert (Hlog : no_close (pl_log (get_packet_len (a_buf a) (a_len a)))).
  { unfold get_packet_len.
    repeat match goal with
    | |- context [if ?c then _ else _] => destruct c
    end; reflexivity. }
  destruct (pl_ret _ <=? 0); [exact Hlog |].
  destruct (pl_ret _ >? a_len a); [exact Hlog |].
  unfold forward.
  destruct src, (pl_internal _); cbn [fst snd];
    (apply no_close_app; [exact Hlog |]);
    try destruct (write_ret e nw _ _ =? _); reflexivity.
Qed.

Lemma main_loop_no_close (e : env) (ts : list tick) :
  no_close (b_out (state_of (main_loop e ts (init_bridge e)))).
Proof.
  apply (main_loop_inv no_close eq_refl no_close_app (fun _ => eq_refl)
           packet_body_no_close).
  - apply init_bridge_ok.
  - reflexivity.
Qed.

(** X6: every exit path of [main] releases what it acquired.  Whenever
    the process exits, its status is 0 or 1, each endpoint that was
    opened has been closed exactly once and no other, /dev/stpbt before
    /dev/vhci, and the [close] calls are the last thing it does. *)
Theorem main_closes_what_it_opened (e : env) (code : Z) (tr : list event) :
  main e = Some (code, tr) ->
  (code = 0 \/ code = 1) /\
  closes_of tr =
    (if open_vhci_ok e
     then if open_stpbt_ok e then [STPBT; VHCI] else [VHCI]
     else []) /\
  exists tr0, tr = tr0 ++ map EvClose (closes_of tr) /\ closes_of tr0 = [].
Proof.
  unfold main.
  destruct (open_vhci_ok e); cbn [negb].
  2:{ intros [= <- <-]. split; [auto | split; [reflexivity |]].
      eexists. split; [symmetry; apply app_nil_r | reflexivity]. }
  destruct (open_stpbt_ok e); cbn [negb].
  2:{ intros [= <- <-]. split; [auto | split; [reflexivity |]].
      exists [EvPerror "Failed to open /dev/stpbt";
              EvStderr "Make sure BT function is enabled via WMT";
              EvStderr "And that no other process has the device open"].
      split; reflexivity. }
  destruct (negb (nonblock_vhci_ok e) || negb (nonblock_stpbt_ok e)).
  { intros [= <- <-]. split; [auto | split; [reflexivity |]].
    exists [EvPerror "Failed to set non-blocking mode"]. split; reflexivity. }
  pose proof (main_loop_no_close e (script e)) as Hnc.
  destruct (main_loop e (script e) (init_bridge e)) as [s | s];
    [discriminate |].
  cbn [state_of] in Hnc. intros [= <- <-].
  assert (Hc : closes_of (b_out s ++ [EvClose STPBT; EvClose VHCI]) = [STPBT; VHCI]).
  { unfold no_close, closes_of in *. rewrite flat_map_app, Hnc. reflexivity. }
  split; [auto | split; [exact Hc |]].
  exists (b_out s). rewrite Hc. split; [reflexivity | exact Hnc].
Qed.

Lemma main_closes_what_it_opened_witness :
  let e := Env true false true true (fun _ _ n => n) [] [] [] [] [] in
  main e = Some (1, [EvPerror "Failed to open /dev/stpbt";
                     EvStderr "Make sure BT function is enabled via WMT";
                     EvStderr "And that no other process has the device open";
                     EvClose VHCI]) /\
  closes_of [EvPerror "Failed to open /dev/stpbt";
             EvStderr "Make sure BT function is enabled via WMT";
             EvStderr "And that no other process has the device open";
             EvClose VHCI] = [VHCI].
Proof.
  cbv zeta.
  assert (H : main (Env true false true true (fun _ _ n => n) [] [] [] [] []) =
              Some (1, [EvPerror "Failed to open /dev/stpbt";
                        EvStderr "Make sure BT function is enabled via WMT";
                        EvStderr "And that no other process has the device open";
                        EvClose VHCI])) by reflexivity.
  split; [exact H |].
  exact (proj1 (proj2 (main_closes_what_it_opened _ _ _ H))).
Defined.

(** ** Nothing complete is left waiting *)

Lemma packet_loop_settled (e : env) (src : endpoint) (fuel : nat) :
  forall (a : accum) (nw : nat),
  (Z.to_nat (a_len a) <= fuel)%nat ->
  settled (fst (fst (packet_loop e src fuel a nw))).
Proof.
  induction fuel as [| fuel IH]; intros a nw Hf; cbn [packet_loop].
  - left. cbn [fst]. lia.
  - destruct (a_len a >? 0) eqn:Hpos; [| left; cbn [fst]; lia].
    destruct (packet_body e src a nw) as [evs [[a' nw'] |]] eqn:Hb.
    + assert (Hlen : a_len a' < a_len a).
      { unfold packet_body in Hb.
        destruct (pl_ret _ <=? 0) eqn:H0; [discriminate |].
        destruct (pl_ret _ >? a_len a); [discriminate |].
        destruct (forward _ _ _ _ _ _). injection Hb as _ <- _.
        simpl. lia. }
      specialize (IH a' nw' ltac:(lia)).
      destruct (packet_loop e src fuel a' nw') as [[a2 nw2] evs2]. exact IH.
    + cbn [fst]. right. unfold packet_body in Hb.
      destruct (pl_ret _ <=? 0) eqn:H0; [left; lia |].
      destruct (pl_ret _ >? a_len a) eqn:H1; [right; lia |].
      destruct (forward _ _ _ _ _ _). discriminate.
Qed.

Lemma pump_settled (e : env) (src : endpoint) (r : read_result) (l : lane)
    (nw : nat) :
  settled (l_acc l) -> settled (l_acc (fst (fst (pump e src r l nw)))).
Proof.
  intros Hs. destruct r as [k | er].
  - rewrite pump_read. destruct (read_data _ _ _) as [| b data]; [exact Hs |].
    cbv zeta.
    pose proof (packet_loop_settled e src
      (Z.to_nat (a_len (receive (l_acc l) (b :: data))))
      (receive (l_acc l) (b :: data)) nw (Nat.le_refl _)) as H.
    destruct (packet_loop _ _ _ _ _) as [[a2 nw2] evs2]. exact H.
  - destruct er; exact Hs.
Qed.

Lemma iteration_settled (e : env) (t : tick) (s : bridge) :
  settled (l_acc (b_vhci s)) /\ settled (l_acc (b_stpbt s)) ->
  settled (l_acc (b_vhci (state_of (iteration e t s)))) /\
  settled (l_acc (b_stpbt (state_of (iteration e t s)))).
Proof.
  intros Hs. unfold iteration.
  destruct (negb (t_running t)); [exact Hs |].
  destruct (t_select t) as [er | | vs ss]; cbn [state_of].
  - destruct er; exact Hs.
  - exact Hs.
  - assert (H1 : settled (l_acc (b_vhci (if vs then pump_vhci e (t_vhci_read t) s else s))) /\
                 settled (l_acc (b_stpbt (if vs then pump_vhci e (t_vhci_read t) s else s)))).
    { destruct vs; [| exact Hs]. unfold pump_vhci.
      pose proof (pump_settled e VHCI (t_vhci_read t) (b_vhci s) (b_writes s)
                    (proj1 Hs)) as H.
      destruct (pump _ _ _ _ _) as [[l nw] evs].
      split; [exact H | exact (proj2 Hs)]. }
    set (s1 := if vs then pump_vhci e (t_vhci_read t) s else s) in *.
    destruct ss; [| exact H1]. unfold pump_stpbt.
    pose proof (pump_settled e STPBT (t_stpbt_read t) (b_stpbt s1) (b_writes s1)
                  (proj2 H1)) as H.
    destruct (pump _ _ _ _ _) as [[l nw] evs].
    split; [exact (proj1 H1) | exact H].
Qed.

Lemma main_loop_settled (e : env) (ts : list tick) :
  forall s,
  settled (l_acc (b_vhci s)) /\ settled (l_acc (b_stpbt s)) ->
  settled (l_acc (b_vhci (state_of (main_loop e ts s)))) /\
  settled (l_acc (b_stpbt (state_of (main_loop e ts s)))).
Proof.
  induction ts as [| t ts IH]; intros s Hs; cbn [main_loop]; [exact Hs |].
  pose proof (iteration_settled e t s Hs) as Hi.
  destruct (iteration e t s) as [s' | s']; [apply IH |]; exact Hi.
Qed.

(** X7: the packet loop runs to its end, and nothing complete is left
    behind.  Each turn removes at least one byte, so the [len] turns the
    model allows are never used up; in every state the select loop
    reaches, each buffer is empty, or holds a start on which
    [get_packet_len] asks for more bytes, or holds an unknown tag.  A
    packet that has arrived completely is never held back until the next
    read. *)
Theorem nothing_complete_pending (e : env) (ts : list tick) :
  let s := state_of (main_loop e ts (init_bridge e)) in
  settled (l_acc (b_vhci s)) /\ settled (l_acc (b_stpbt s)).
Proof.
  cbv zeta. apply main_loop_settled. split; left; simpl; lia.
Qed.

(** ** Vendor packets take everything *)

(** X8: in a buffer of two or more bytes that starts with 0xff, one
    turn of the packet loop takes all the pending bytes as a single
    internal packet and empties the buffer, so whatever frames followed
    the vendor packet in the same buffer are taken with it.  On the VHCI
    side nothing is written; on the stpbt side the whole lot goes to
    /dev/vhci in one [write]. *)
Theorem vendor_takes_all (e : env) (src : endpoint) (a : accum) (nw : nat)
    (fuel : nat) :
  acc_ok a ->
  2 <= a_len a ->
  rd (a_buf a) 0 = HCI_VHCI_PKT ->
  let res := packet_loop e src (S fuel) a nw in
  a_len (fst (fst res)) = 0 /\
  packets_of src (snd res) = [(true, pending a)] /\
  writes_to (other src) (snd res) =
    match src with VHCI => [] | STPBT => [pending a] end.
Proof.
  intros Hok Hlen Htag. cbv zeta. cbn [packet_loop].
  assert ((a_len a >? 0) = true) as -> by lia.
  assert (Hg : get_packet_len (pending a) (a_len a) = PktLen (a_len a) true []).
  { unfold pending. rewrite get_packet_len_take. unfold get_packet_len.
    rewrite Htag. simpl.
    assert ((a_len a <? 1) = false) as -> by lia.
    assert ((a_len a <? 2) = false) as -> by lia. reflexivity. }
  rewrite packet_body_extract by (try exact Hok; rewrite Hg; simpl; lia).
  rewrite Hg. cbn [pl_ret pl_internal pl_log app].
  assert (Htk : take (Z.to_nat (a_len a)) (pending a) = pending a).
  { unfold pending. rewrite take_take. f_equal. lia. }
  rewrite Htk.
  assert (Hl0 : a_len (remove_packet a (a_len a)) = 0)
    by (unfold remove_packet; simpl; lia).
  assert (Hloop : forall n, packet_loop e src fuel (remove_packet a (a_len a)) n =
                            (remove_packet a (a_len a), n, [])).
  { intros n. destruct fuel; cbn [packet_loop]; [reflexivity |].
    rewrite Hl0. reflexivity. }
  rewrite Hloop. cbn [fst snd]. rewrite app_nil_r.
  split; [exact Hl0 |].
  unfold forward. destruct src; cbn [fst snd other].
  - split; reflexivity.
  - destruct (write_ret e nw VHCI (a_len a) =? a_len a); split; reflexivity.
Qed.

Lemma vendor_takes_all_witness :
  let a := receive empty_acc (vendor_bytes ++ event_frame) in
  acc_ok a /\ 2 <= a_len a /\ rd (a_buf a) 0 = HCI_VHCI_PKT /\
  packets_of VHCI (snd (packet_loop (quiet_env [] [] []) VHCI 1 a 0)) =
    [(true, pending a)].
Proof.
  cbv zeta.
  assert (H1 : acc_ok (receive empty_acc (vendor_bytes ++ event_frame))).
  { apply (proj1 (receive_ok empty_acc (vendor_bytes ++ event_frame)
                   empty_acc_ok ltac:(vm_compute; discriminate))). }
  assert (H2 : 2 <= a_len (receive empty_acc (vendor_bytes ++ event_frame)))
    by (vm_compute; discriminate).
  assert (H3 : rd (a_buf (receive empty_acc (vendor_bytes ++ event_frame))) 0 =
               HCI_VHCI_PKT) by (vm_compute; reflexivity).
  split; [exact H1 | split; [exact H2 | split; [exact H3 |]]].
  exact (proj1 (proj2 (vendor_takes_all (quiet_env [] [] []) VHCI
    (receive empty_acc (vendor_bytes ++ event_frame)) 0 0 H1 H2 H3))).
Defined.

(** ** Frames longer than the buffer *)

Lemma get_packet_len_oversized (a : accum) :
  oversized a ->
  get_packet_len (a_buf a) (a_len a) =
    PktLen (5 + le16 (rd (a_buf a) 3) (rd (a_buf a) 4)) false [].
Proof.
  intros (Hok & Hlen & Htag & Hbig).
  apply (get_packet_len_known (a_buf a) (a_len a) ACLData).
  - rewrite Htag. reflexivity.
  - discriminate.
  - exact Hlen.
Qed.

Lemma pump_oversized (e : env) (src : endpoint) (k : nat) (l : lane) (nw : nat) :
  oversized (l_acc l) ->
  oversized (l_acc (fst (fst (pump e src (ReadUpTo k) l nw)))) /\
  snd (fst (pump e src (ReadUpTo k) l nw)) = nw /\
  snd (pump e src (ReadUpTo k) l nw) = [].
Proof.
  intros Hov. rewrite pump_read.
  pose proof Hov as (Hok & Hlen & Htag & Hbig).
  pose proof (read_data_fits (l_acc l) k (l_queue l) Hok) as Hfit.
  destruct (read_data _ _ _) as [| b data];
    [split; [exact Hov | split; reflexivity] |].
  cbv zeta.
  destruct (receive_ok (l_acc l) (b :: data) Hok Hfit) as [Hok1 _].
  assert (Hov1 : oversized (receive (l_acc l) (b :: data))).
  { split; [exact Hok1 | split; [unfold receive; simpl; lia |]].
    rewrite !rd_receive by (try exact Hok; lia). split; assumption. }
  pose proof (get_packet_len_oversized _ Hov1) as Hg.
  destruct (Z.to_nat (a_len (receive (l_acc l) (b :: data)))) as [| fuel] eqn:Hf;
    [destruct Hov1 as (_ & H & _); lia |].
  cbn [packet_loop].
  assert ((a_len (receive (l_acc l) (b :: data)) >? 0) = true) as ->
    by (destruct Hov1 as (_ & H & _); lia).
  unfold packet_body. rewrite Hg. cbn [pl_ret pl_log].
  destruct Hov1 as ([_ Hb] & _ & _ & Hbig1).
  assert ((5 + le16 (rd (a_buf (receive (l_acc l) (b :: data))) 3)
                    (rd (a_buf (receive (l_acc l) (b :: data))) 4) <=? 0) = false)
    as -> by lia.
  assert ((5 + le16 (rd (a_buf (receive (l_acc l) (b :: data))) 3)
                    (rd (a_buf (receive (l_acc l) (b :: data))) 4)
           >? a_len (receive (l_acc l) (b :: data))) = true) as -> by lia.
  cbn [fst snd l_acc]. split; [| split; reflexivity].
  split; [exact Hok1 | split; [unfold receive; simpl; lia |]].
  rewrite !rd_receive by (try exact Hok; lia). split; assumption.
Qed.

Lemma feed_oversized (e : env) (src : endpoint) (ks : list nat) :
  forall (l : lane) (nw : nat),
  oversized (l_acc l) ->
  oversized (l_acc (fst (fst (feed e src ks l nw)))) /\
  snd (fst (feed e src ks l nw)) = nw /\
  snd (feed e src ks l nw) = [].
Proof.
  induction ks as [| k ks IH]; intros l nw Hov; cbn [feed].
  - split; [exact Hov | split; reflexivity].
  - destruct (pump_oversized e src k l nw Hov) as (Hov1 & Hnw & Hev1).
    destruct (pump e src (ReadUpTo k) l nw) as [[l1 nw1] evs1].
    cbn [fst snd] in *. subst nw1 evs1.
    specialize (IH l1 nw Hov1).
    destruct (feed e src ks l1 nw) as [[l2 nw2] evs2]. cbn [fst snd] in *.
    exact IH.
Qed.

(** X9: an ACL packet that cannot fit is never delivered.  Once a
    buffer begins with an ACL header whose announced total length is more
    than [BUF_SIZE], no later read on that endpoint, however many there
    are, extracts a packet, calls [write] or prints anything: the
    direction is blocked for good, silently. *)
Theorem oversized_acl_blocks (e : env) (src : endpoint) (ks : list nat)
    (l : lane) (nw : nat) :
  oversized (l_acc l) ->
  oversized (l_acc (fst (fst (feed e src ks l nw)))) /\
  snd (fst (feed e src ks l nw)) = nw /\
  snd (feed e src ks l nw) = [].
Proof. apply feed_oversized. Qed.

Lemma oversized_acl_blocks_witness :
  let a := receive empty_acc [x02; x00; x00; xff; xff] in
  oversized a /\
  snd (feed (quiet_env [] [] []) VHCI [4000%nat; 4000%nat]
         (Lane a (repeat x00 5000)) 0) = [].
Proof.
  cbv zeta.
  assert (H : oversized (receive empty_acc [x02; x00; x00; xff; xff])).
  { split; [| split; [| split]].
    - apply (proj1 (receive_ok empty_acc [x02; x00; x00; xff; xff]
                      empty_acc_ok ltac:(vm_compute; discriminate))).
    - vm_compute. discriminate.
    - vm_compute. reflexivity.
    - vm_compute. reflexivity. }
  split; [exact H |].
  exact (proj2 (proj2 (oversized_acl_blocks (quiet_env [] [] []) VHCI
    [4000%nat; 4000%nat]
    (Lane (receive empty_acc [x02; x00; x00; xff; xff]) (repeat x00 5000)) 0 H))).
Defined.

(** ** When errors are printed *)

Lemma errors_of_app (t1 t2 : list event) :
  errors_of (t1 ++ t2) = errors_of t1 ++ errors_of t2.
Proof. apply List.filter_app. Qed.

Lemma get_packet_len_log_errors (buf : list byte) (len : Z) :
  errors_of (pl_log (get_packet_len buf len)) = pl_log (get_packet_len buf len).
Proof.
  unfold get_packet_len.
  repeat match goal with
  | |- context [if ?c then _ else _] => destruct c
  end; reflexivity.
Qed.

Lemma packet_loop_errors (e : env) (src : endpoint) (fuel : nat) :
  complete_writes e ->
  forall (a : accum) (nw : nat),
  (Z.to_nat (a_len a) <= fuel)%nat ->
  let res := packet_loop e src fuel a nw in
  errors_of (snd res) =
    pl_log (get_packet_len (a_buf (fst (fst res))) (a_len (fst (fst res)))).
Proof.
  intros Hw. induction fuel as [| fuel IH]; intros a nw Hf; cbv zeta;
    cbn [packet_loop].
  - cbn [fst snd]. unfold get_packet_len.
    assert ((a_len a <? 1) = true) as -> by lia. reflexivity.
  - destruct (a_len a >? 0) eqn:Hpos.
    2:{ cbn [fst snd]. unfold get_packet_len.
        assert ((a_len a <? 1) = true) as -> by lia. reflexivity. }
    destruct (packet_body e src a nw) as [evs [[a' nw'] |]] eqn:Hb.
    + unfold packet_body in Hb.
      destruct (pl_ret _ <=? 0) eqn:H0; [discriminate |].
      destruct (pl_ret _ >? a_len a) eqn:H1; [discriminate |].
      apply Z.leb_gt in H0.
      destruct (get_packet_len_positive (a_buf a) (a_len a) H0) as [_ Hlog].
      assert (Hfw : errors_of (snd (forward e src
                (pl_internal (get_packet_len (a_buf a) (a_len a)))
                (take (Z.to_nat (pl_ret (get_packet_len (a_buf a) (a_len a)))) (a_buf a))
                (pl_ret (get_packet_len (a_buf a) (a_len a))) nw)) = []).
      { unfold forward. destruct src, (pl_internal _); cbn [snd];
          rewrite ?Hw, ?Z.eqb_refl; reflexivity. }
      destruct (forward _ _ _ _ _ _) as [nw1 evs1]. cbn [snd] in Hfw.
      injection Hb as <- <- <-.
      specialize (IH (remove_packet a (pl_ret (get_packet_len (a_buf a) (a_len a))))
                    nw1 ltac:(unfold remove_packet; simpl; lia)).
      cbv zeta in IH.
      destruct (packet_loop e src fuel _ nw1) as [[a2 nw2] evs2].
      cbn [fst snd] in *.
      rewrite Hlog, !errors_of_app. cbn [app]. 
      change (errors_of (EvPacket src ?i ?p :: ?l)) with (errors_of l).
      rewrite Hfw, <- IH. reflexivity.
    + cbn [fst snd]. rewrite (packet_body_none_log e src a nw evs Hb).
      apply get_packet_len_log_errors.
Qed.

Lemma in_frames_log (l : lane) (fs : list (list byte)) :
  in_frames l fs ->
  pl_log (get_packet_len (a_buf (l_acc l)) (a_len (l_acc l))) = [].
Proof.
  intros (Hok & Hfs & Hcat & Hpart).
  pose proof (pending_length _ Hok) as Hlen.
  rewrite <- get_packet_len_take. fold (pending (l_acc l)).
  destruct (partial_tail_ok _ _ _ Hfs Hcat Hpart) as [Hnil | (f & Hf & Htake & Hlt)].
  - rewrite Hnil in Hlen. simpl in Hlen. unfold get_packet_len.
    assert ((a_len (l_acc l) <? 1) = true) as -> by (destruct Hok; lia).
    reflexivity.
  - destruct (Z.lt_ge_cases (a_len (l_acc l)) 1) as [H0 | H1].
    + unfold get_packet_len.
      assert ((a_len (l_acc l) <? 1) = true) as -> by lia. reflexivity.
    + apply (get_packet_len_frame f (pending (l_acc l)) (a_len (l_acc l)) Hf H1).
      intros i Hi _. rewrite <- Htake. apply rd_take. lia.
Qed.

Lemma pump_frames_quiet (e : env) (src : endpoint) (k : nat) (l : lane)
    (nw : nat) (fs : list (list byte)) :
  complete_writes e ->
  in_frames l fs ->
  errors_of (snd (pump e src (ReadUpTo k) l nw)) = [].
Proof.
  intros Hw Hin.
  destruct (pump_frames e src k l nw fs Hin) as (gs & fs' & _ & Hin' & _).
  pose proof (in_frames_log _ _ Hin') as Hlog.
  revert Hlog. rewrite pump_read.
  destruct (read_data _ _ _) as [| b data]; [reflexivity |]. cbv zeta.
  pose proof (packet_loop_errors e src
    (Z.to_nat (a_len (receive (l_acc l) (b :: data)))) Hw
    (receive (l_acc l) (b :: data)) nw (Nat.le_refl _)) as He.
  cbv zeta in He.
  destruct (packet_loop _ _ _ _ _) as [[a2 nw2] evs2]. cbn [fst snd l_acc] in *.
  intros Hlog. rewrite He. exact Hlog.
Qed.

Lemma feed_policy (e : env) (src : endpoint) (ks : list nat) :
  forall (l : lane) (nw : nat), policy (snd (feed e src ks l nw)).
Proof.
  induction ks as [| k ks IH]; intros l nw; cbn [feed]; [apply policy_nil |].
  pose proof (pump_policy e src (ReadUpTo k) l nw) as Hp.
  destruct (pump e src (ReadUpTo k) l nw) as [[l1 nw1] evs1].
  specialize (IH l1 nw1).
  destruct (feed e src ks l1 nw1) as [[l2 nw2] evs2].
  apply policy_app; assumption.
Qed.

Lemma feed_frames_quiet (e : env) (src : endpoint) (ks : list nat) :
  complete_writes e ->
  forall (l : lane) (nw : nat) (fs : list (list byte)),
  in_frames l fs ->
  errors_of (snd (feed e src ks l nw)) = [].
Proof.
  intros Hw. induction ks as [| k ks IH]; intros l nw fs Hin; cbn [feed];
    [reflexivity |].
  pose proof (pump_frames_quiet e src k l nw fs Hw Hin) as Hq.
  destruct (pump_frames e src k l nw fs Hin) as (gs & fs' & _ & Hin' & _).
  destruct (pump e src (ReadUpTo k) l nw) as [[l1 nw1] evs1].
  cbn [fst snd] in *.
  specialize (IH l1 nw1 fs' Hin').
  destruct (feed e src ks l1 nw1) as [[l2 nw2] evs2]. cbn [fst snd] in *.
  rewrite errors_of_app, Hq, IH. reflexivity.
Qed.

Lemma filter_sized_frames (gs : list (list byte)) :
  Forall sized_frame gs ->
  List.filter (fun p => negb (is_vendor p)) gs = gs.
Proof.
  induction 1 as [| g gs Hg _ IH]; cbn [List.filter]; [reflexivity |].
  rewrite (sized_frame_not_vendor g Hg), IH. reflexivity.
Qed.

Lemma map_snd_pair (gs : list (list byte)) : map snd (map (pair false) gs) = gs.
Proof. induction gs as [| g gs IH]; cbn [map snd]; [| rewrite IH]; reflexivity. Qed.

(** X10: frames come out in order, whole, at any time.  With a
    sequence of complete Command, ACL-Data, SCO-Data and Event frames
    queued on the source of an empty direction, after any reads at all
    the packets extracted are a beginning of that sequence, each was
    handed to [write] for the other endpoint exactly as it is, in the
    same order, and what is pending or still queued is the rest of the
    sequence; and when every [write] is complete nothing is printed on
    stderr. *)
Theorem frames_in_order (e : env) (src : endpoint) (junk : list byte)
    (fs : list (list byte)) (ks : list nat) (nw : nat) :
  Forall sized_frame fs ->
  let res := feed e src ks (Lane (Accum (stack_array junk) 0) (concat fs)) nw in
  (exists gs fs',
     fs = gs ++ fs' /\
     packets_of src (snd res) = map (pair false) gs /\
     writes_to (other src) (snd res) = gs /\
     pending (l_acc (fst (fst res))) ++ l_queue (fst (fst res)) = concat fs') /\
  (complete_writes e -> errors_of (snd res) = []).
Proof.
  intros Hfs. cbv zeta.
  pose proof (in_frames_init junk fs Hfs) as Hin.
  split.
  - destruct (feed_frames e src ks _ nw fs Hin) as (gs & fs' & Heq & Hin' & Hev).
    pose proof (feed_policy e src ks
      (Lane (Accum (stack_array junk) 0) (concat fs)) nw) as [Hp1 Hp2].
    exists gs, fs'. split; [exact Heq | split; [exact Hev | split]].
    + assert (Hgs : Forall sized_frame gs)
        by (rewrite Heq in Hfs; apply Forall_app in Hfs; apply Hfs).
      destruct src; cbn [other].
      * rewrite Hp1, Hev, map_snd_pair. apply filter_sized_frames, Hgs.
      * rewrite Hp2, Hev. apply map_snd_pair.
    + apply Hin'.
  - intros Hw. apply (feed_frames_quiet e src ks Hw _ nw fs Hin).
Qed.

Lemma frames_in_order_witness :
  let fs := [event_frame; command_frame] in
  Forall sized_frame fs /\
  exists gs fs',
    fs = gs ++ fs' /\
    packets_of STPBT (snd (feed (quiet_env [] [] []) STPBT [3%nat; 6%nat]
       (Lane (Accum (stack_array []) 0) (concat fs)) 0)) = map (pair false) gs /\
    writes_to (other STPBT) (snd (feed (quiet_env [] [] []) STPBT [3%nat; 6%nat]
       (Lane (Accum (stack_array []) 0) (concat fs)) 0)) = gs /\
    pending (l_acc (fst (fst (feed (quiet_env [] [] []) STPBT [3%nat; 6%nat]
       (Lane (Accum (stack_array []) 0) (concat fs)) 0)))) ++
    l_queue (fst (fst (feed (quiet_env [] [] []) STPBT [3%nat; 6%nat]
       (Lane (Accum (stack_array []) 0) (concat fs)) 0))) = concat fs'.
Proof.
  cbv zeta.
  assert (Hfs : Forall sized_frame [event_frame; command_frame]).
  { constructor; [apply frame_event; reflexivity |].
    constructor; [apply frame_command; reflexivity | constructor]. }
  split; [exact Hfs |].
  exact (proj1 (frames_in_order (quiet_env [] [] []) STPBT []
    [event_frame; command_frame] [3%nat; 6%nat] 0 Hfs)).
Defined.

(** X11: with complete writes, a read that brings data prints an error
    only when the buffer ends up headed by an unknown tag, and then what
    it prints is that one tag, once. *)
Theorem errors_only_on_unknown_tag (e : env) (src : endpoint) (k : nat)
    (l : lane) (nw : nat) :
  complete_writes e ->
  read_data (l_acc l) k (l_queue l) <> [] ->
  let a' := l_acc (fst (fst (pump e src (ReadUpTo k) l nw))) in
  let errs := errors_of (snd (pump e src (ReadUpTo k) l nw)) in
  (errs = [] /\ (a_len a' < 1 \/ type_of_tag (rd (a_buf a') 0) <> None)) \/
  (errs = [EvUnknownType (rd (a_buf a') 0)] /\
   1 <= a_len a' /\ type_of_tag (rd (a_buf a') 0) = None).
Proof.
  intros Hw Hdata. cbv zeta. rewrite pump_read.
  destruct (read_data _ _ _) as [| b data]; [contradiction |]. cbv zeta.
  pose proof (packet_loop_errors e src
    (Z.to_nat (a_len (receive (l_acc l) (b :: data)))) Hw
    (receive (l_acc l) (b :: data)) nw (Nat.le_refl _)) as He.
  cbv zeta in He.
  destruct (packet_loop _ _ _ _ _) as [[a2 nw2] evs2]. cbn [fst snd l_acc] in *.
  rewrite He.
  destruct (get_packet_len_kinds (a_buf a2) (a_len a2))
    as [[Hl ->] | [(Hl & Hty & ->) | [(ty & Hl & Hty & _ & ->)
                                     | (ty & Hl & Hty & _ & ->)]]];
    cbn [pl_log].
  - left. auto.
  - right. auto.
  - left. split; [reflexivity | right; congruence].
  - left. split; [reflexivity | right; congruence].
Qed.

Lemma errors_only_on_unknown_tag_witness :
  let e := quiet_env [] [] [] in
  let l := Lane empty_acc (event_frame ++ [x09; x01]) in
  complete_writes e /\
  read_data (l_acc l) 9 (l_queue l) <> [] /\
  let a' := l_acc (fst (fst (pump e STPBT (ReadUpTo 9) l 0))) in
  let errs := errors_of (snd (pump e STPBT (ReadUpTo 9) l 0)) in
  (errs = [] /\ (a_len a' < 1 \/ type_of_tag (rd (a_buf a') 0) <> None)) \/
  (errs = [EvUnknownType (rd (a_buf a') 0)] /\
   1 <= a_len a' /\ type_of_tag (rd (a_buf a') 0) = None).
Proof.
  cbv zeta.
  assert (Hw : complete_writes (quiet_env [] [] [])) by (intros n fd c; reflexivity).
  assert (Hd : read_data (l_acc (Lane empty_acc (event_frame ++ [x09; x01]))) 9
                 (l_queue (Lane empty_acc (event_frame ++ [x09; x01]))) <> [])
    by (vm_compute; discriminate).
  split; [exact Hw | split; [exact Hd |]].
  exact (errors_only_on_unknown_tag (quiet_env [] [] []) STPBT 9
           (Lane empty_acc (event_frame ++ [x09; x01])) 0 Hw Hd).
Defined.

(** ** The two directions do not touch each other *)

Lemma forward_indep (e e' : env) (src : endpoint) (i : bool) (pkt : list byte)
    (pkt_len : Z) (nw nw' : nat) :
  same_traffic (snd (forward e src i pkt pkt_len nw))
               (snd (forward e' src i pkt pkt_len nw')).
Proof.
  unfold forward.
  destruct src, i; cbn [snd]; try apply same_traffic_refl; intros fd;
    destruct (write_ret e nw _ pkt_len =? pkt_len),
             (write_ret e' nw' _ pkt_len =? pkt_len);
    destruct fd; split; reflexivity.
Qed.

Lemma packet_body_indep (e e' : env) (src : endpoint) (a : accum)
    (nw nw' : nat) :
  option_map fst (snd (packet_body e src a nw)) =
  option_map fst (snd (packet_body e' src a nw')) /\
  same_traffic (fst (packet_body e src a nw)) (fst (packet_body e' src a nw')).
Proof.
  unfold packet_body.
  set (r := get_packet_len (a_buf a) (a_len a)).
  destruct (pl_ret r <=? 0); [split; [reflexivity | apply same_traffic_refl] |].
  destruct (pl_ret r >? a_len a);
    [split; [reflexivity | apply same_traffic_refl] |].
  pose proof (forward_indep e e' src (pl_internal r)
    (take (Z.to_nat (pl_ret r)) (a_buf a)) (pl_ret r) nw nw') as Ht.
  destruct (forward e _ _ _ _ _) as [n1 ev1].
  destruct (forward e' _ _ _ _ _) as [n2 ev2]. cbn [fst snd option_map] in *.
  split; [reflexivity |].
  apply same_traffic_app; [apply same_traffic_refl |].
  apply (same_traffic_app [_] ev1 [_] ev2); [apply same_traffic_refl | exact Ht].
Qed.

Lemma packet_loop_indep (e e' : env) (src : endpoint) (fuel : nat) :
  forall (a : accum) (nw nw' : nat),
  fst (fst (packet_loop e src fuel a nw)) =
  fst (fst (packet_loop e' src fuel a nw')) /\
  same_traffic (snd (packet_loop e src fuel a nw))
               (snd (packet_loop e' src fuel a nw')).
Proof.
  induction fuel as [| fuel IH]; intros a nw nw'; cbn [packet_loop];
    [split; [reflexivity | apply same_traffic_refl] |].
  destruct (a_len a >? 0); [| split; [reflexivity | apply same_traffic_refl]].
  destruct (packet_body_indep e e' src a nw nw') as [Hs Ht].
  destruct (packet_body e src a nw) as [ev1 [[a1 n1] |]];
    destruct (packet_body e' src a nw') as [ev2 [[a2 n2] |]];
    cbn [fst snd option_map] in *; try discriminate.
  - injection Hs as <-.
    destruct (IH a1 n1 n2) as [Hf Hl].
    destruct (packet_loop e src fuel a1 n1) as [[b1 m1] l1].
    destruct (packet_loop e' src fuel a1 n2) as [[b2 m2] l2].
    cbn [fst snd] in *.
    split; [exact Hf | apply same_traffic_app; assumption].
  - split; [reflexivity | exact Ht].
Qed.

Lemma pump_indep (e e' : env) (src : endpoint) (r : read_result) (l : lane)
    (nw nw' : nat) :
  fst (fst (pump e src r l nw)) = fst (fst (pump e' src r l nw')) /\
  same_traffic (snd (pump e src r l nw)) (snd (pump e' src r l nw')).
Proof.
  destruct r as [k | er].
  - rewrite !pump_read. destruct (read_data _ _ _) as [| b data];
      [split; [reflexivity | apply same_traffic_refl] |]. cbv zeta.
    destruct (packet_loop_indep e e' src
      (Z.to_nat (a_len (receive (l_acc l) (b :: data))))
      (receive (l_acc l) (b :: data)) nw nw') as [Hf Hl].
    destruct (packet_loop e _ _ _ _) as [[a1 n1] l1].
    destruct (packet_loop e' _ _ _ _) as [[a2 n2] l2]. cbn [fst snd] in *.
    subst a2. split; [reflexivity | exact Hl].
  - destruct er; split; try reflexivity; apply same_traffic_refl.
Qed.

Lemma pump_side_same (src : endpoint) (e e' : env) (r : read_result)
    (s s' : bridge) :
  agree src s s' -> agree src (pump_side src e r s) (pump_side src e' r s').
Proof.
  intros (Hl & Hp & Hw). unfold agree, pump_side, pump_vhci, pump_stpbt.
  destruct src; cbn [lane_of other] in *.
  - destruct (pump_indep e e' VHCI r (b_vhci s) (b_writes s) (b_writes s'))
      as [Hf Ht]. rewrite <- Hl.
    destruct (pump e VHCI r (b_vhci s) (b_writes s)) as [[l1 n1] ev1].
    destruct (pump e' VHCI r (b_vhci s) (b_writes s')) as [[l2 n2] ev2].
    cbn [fst snd b_vhci b_out] in *.
    rewrite !packets_of_app, !writes_to_app, Hp, Hw.
    destruct (Ht VHCI) as [-> _], (Ht STPBT) as [_ ->]. auto.
  - destruct (pump_indep e e' STPBT r (b_stpbt s) (b_writes s) (b_writes s'))
      as [Hf Ht]. rewrite <- Hl.
    destruct (pump e STPBT r (b_stpbt s) (b_writes s)) as [[l1 n1] ev1].
    destruct (pump e' STPBT r (b_stpbt s) (b_writes s')) as [[l2 n2] ev2].
    cbn [fst snd b_stpbt b_out] in *.
    rewrite !packets_of_app, !writes_to_app, Hp, Hw.
    destruct (Ht STPBT) as [-> _], (Ht VHCI) as [_ ->]. auto.
Qed.

Lemma pump_side_other (src : endpoint) (e : env) (r : read_result)
    (s : bridge) :
  agree src (pump_side (other src) e r s) s.
Proof.
  unfold agree, pump_side, pump_vhci, pump_stpbt.
  destruct src; cbn [lane_of other].
  - destruct (pump_other e STPBT r (b_stpbt s) (b_writes s)) as [Hp Hw].
    destruct (pump e STPBT r (b_stpbt s) (b_writes s)) as [[l1 n1] ev1].
    cbn [fst snd b_vhci b_out other] in *.
    rewrite packets_of_app, writes_to_app, Hp, Hw, !app_nil_r. auto.
  - destruct (pump_other e VHCI r (b_vhci s) (b_writes s)) as [Hp Hw].
    destruct (pump e VHCI r (b_vhci s) (b_writes s)) as [[l1 n1] ev1].
    cbn [fst snd b_stpbt b_out other] in *.
    rewrite packets_of_app, writes_to_app, Hp, Hw, !app_nil_r. auto.
Qed.

Lemma agree_refl (src : endpoint) (s : bridge) : agree src s s.
Proof. repeat split. Qed.

Lemma agree_sym (src : endpoint) (s s' : bridge) :
  agree src s s' -> agree src s' s.
Proof. intros (H1 & H2 & H3). repeat split; congruence. Qed.

Lemma agree_trans (src : endpoint) (s1 s2 s3 : bridge) :
  agree src s1 s2 -> agree src s2 s3 -> agree src s1 s3.
Proof. intros (H1 & H2 & H3) (K1 & K2 & K3). repeat split; congruence. Qed.

Lemma agree_log (src : endpoint) (m : string) (s : bridge) :
  agree src (log [EvPerror m] s) s.
Proof.
  unfold agree, log. destruct src; cbn [lane_of b_vhci b_stpbt b_out];
    rewrite packets_of_app, writes_to_app, !app_nil_r; auto.
Qed.

Lemma iteration_agree (src : endpoint) (e e' : env) (t t' : tick)
    (s s' : bridge) :
  view src t = view src t' ->
  agree src s s' ->
  leaves (iteration e t s) = leaves (iteration e' t' s') /\
  agree src (state_of (iteration e t s)) (state_of (iteration e' t' s')).
Proof.
  intros Hv Hs. unfold view in Hv. injection Hv as Hrun Hsel Hr1 Hr2.
  unfold iteration. rewrite <- Hrun.
  destruct (negb (t_running t)); [split; [reflexivity | exact Hs] |].
  destruct (t_select t) as [er | | vs ss], (t_select t') as [er' | | vs' ss'];
    destruct src; try discriminate; cbn [state_of leaves].
  1,2: injection Hsel as <-; destruct er; cbn [state_of leaves];
       (split; [reflexivity |]); try exact Hs;
       (eapply agree_trans; [apply agree_log |]);
       (eapply agree_trans; [exact Hs | apply agree_sym, agree_log]).
  1,2: split; [reflexivity | exact Hs].
  - injection Hsel as <-. split; [reflexivity |].
    assert (H1 : agree VHCI (if vs then pump_vhci e (t_vhci_read t) s else s)
                            (if vs then pump_vhci e' (t_vhci_read t') s' else s')).
    { destruct vs; [| exact Hs]. rewrite <- Hr1.
      apply (pump_side_same VHCI e e' (t_vhci_read t) s s' Hs). }
    set (s1 := if vs then pump_vhci e (t_vhci_read t) s else s) in *.
    set (s1' := if vs then pump_vhci e' (t_vhci_read t') s' else s') in *.
    assert (H2 : agree VHCI (if ss then pump_stpbt e (t_stpbt_read t) s1 else s1) s1).
    { destruct ss; [| apply agree_refl].
      apply (pump_side_other VHCI e (t_stpbt_read t) s1). }
    assert (H3 : agree VHCI (if ss' then pump_stpbt e' (t_stpbt_read t') s1' else s1') s1').
    { destruct ss'; [| apply agree_refl].
      apply (pump_side_other VHCI e' (t_stpbt_read t') s1'). }
    eapply agree_trans; [exact H2 |].
    eapply agree_trans; [exact H1 | apply agree_sym, H3].
  - injection Hsel as <-. split; [reflexivity |].
    assert (H1 : agree STPBT (if vs then pump_vhci e (t_vhci_read t) s else s) s).
    { destruct vs; [| apply agree_refl].
      apply (pump_side_other STPBT e (t_vhci_read t) s). }
    assert (H1' : agree STPBT (if vs' then pump_vhci e' (t_vhci_read t') s' else s') s').
    { destruct vs'; [| apply agree_refl].
      apply (pump_side_other STPBT e' (t_vhci_read t') s'). }
    set (s1 := if vs then pump_vhci e (t_vhci_read t) s else s) in *.
    set (s1' := if vs' then pump_vhci e' (t_vhci_read t') s' else s') in *.
    assert (H12 : agree STPBT s1 s1').
    { eapply agree_trans; [exact H1 |].
      eapply agree_trans; [exact Hs | apply agree_sym, H1']. }
    destruct ss; [| exact H12]. rewrite <- Hr2.
    apply (pump_side_same STPBT e e' (t_stpbt_read t) s1 s1' H12).
Qed.

Lemma main_loop_agree (src : endpoint) (e e' : env) (ts : list tick) :
  forall (ts' : list tick) (s s' : bridge),
  map (view src) ts = map (view src) ts' ->
  agree src s s' ->
  leaves (main_loop e ts s) = leaves (main_loop e' ts' s') /\
  agree src (state_of (main_loop e ts s)) (state_of (main_loop e' ts' s')).
Proof.
  induction ts as [| t ts IH]; intros [| t' ts'] s s' Hv Hs; try discriminate;
    cbn [main_loop]; [split; [reflexivity | exact Hs] |].
  cbn [map] in Hv.
  remember (view src t) as v eqn:Ev. remember (view src t') as v' eqn:Ev'.
  injection Hv as Ht Hts. subst v v'.
  destruct (iteration_agree src e e' t t' s s' Ht Hs) as [Hl Ha].
  destruct (iteration e t s) as [s1 | s1], (iteration e' t' s') as [s1' | s1'];
    cbn [leaves state_of] in *; try discriminate.
  - apply IH; assumption.
  - split; [reflexivity | exact Ha].
Qed.

(** X12: the two directions are independent.  Take two runs that give
    one endpoint the same bytes, start its buffer with the same contents,
    and agree, turn by turn, on [running], on what [select] says about
    that endpoint and on what its [read] returns; they may differ in
    everything about the other endpoint and in what every [write]
    returns.  Then both runs leave the loop at the same turn or not at
    all, and they agree on that endpoint's buffer and queue, on the
    packets extracted from it and on the bytes written for it. *)
Theorem directions_independent (src : endpoint) (e e' : env)
    (ts ts' : list tick) :
  rx_of src e = rx_of src e' ->
  stack_of src e = stack_of src e' ->
  map (view src) ts = map (view src) ts' ->
  let o := main_loop e ts (init_bridge e) in
  let o' := main_loop e' ts' (init_bridge e') in
  leaves o = leaves o' /\
  lane_of src (state_of o) = lane_of src (state_of o') /\
  packets_of src (b_out (state_of o)) = packets_of src (b_out (state_of o')) /\
  writes_to (other src) (b_out (state_of o)) =
  writes_to (other src) (b_out (state_of o')).
Proof.
  intros Hrx Hst Hv. cbv zeta.
  apply (main_loop_agree src e e' ts ts' (init_bridge e) (init_bridge e') Hv).
  unfold agree, init_bridge. destruct src; cbn [lane_of rx_of stack_of b_out] in *;
    rewrite Hrx, Hst; auto.
Qed.

Lemma directions_independent_witness :
  let e := quiet_env command_frame event_frame [ready 6 7; cancelled] in
  let e' := short_env command_frame [x05] [ready 6 1; cancelled] in
  rx_of VHCI e = rx_of VHCI e' /\
  stack_of VHCI e = stack_of VHCI e' /\
  map (view VHCI) (script e) = map (view VHCI) (script e') /\
  writes_to (other VHCI) (b_out (state_of (main_loop e (script e) (init_bridge e)))) =
  writes_to (other VHCI) (b_out (state_of (main_loop e' (script e') (init_bridge e')))).
Proof.
  cbv zeta. split; [reflexivity | split; [reflexivity | split; [reflexivity |]]].
  exact (proj2 (proj2 (proj2 (directions_independent VHCI
    (quiet_env command_frame event_frame [ready 6 7; cancelled])
    (short_env command_frame [x05] [ready 6 1; cancelled])
    [ready 6 7; cancelled] [ready 6 1; cancelled] eq_refl eq_refl eq_refl)))).
Defined.

(** ** The hex dump *)

Lemma hex_digit_inj (a b : Z) :
  0 <= a < 16 -> 0 <= b < 16 -> hex_digit a = hex_digit b -> a = b.
Proof.
  intros Ha Hb. unfold hex_digit.
  assert (Hn : (Z.to_nat a < 16)%nat) by lia.
  assert (Hm : (Z.to_nat b < 16)%nat) by lia.
  enough (nth (Z.to_nat a) (list_ascii_of_string "0123456789abcdef") "?"%char =
          nth (Z.to_nat b) (list_ascii_of_string "0123456789abcdef") "?"%char ->
          Z.to_nat a = Z.to_nat b) by (intros H1; apply H in H1; lia).
  revert Hn Hm. generalize (Z.to_nat a) as n. generalize (Z.to_nat b) as m.
  intros m n Hn Hm.
  do 16 (destruct n as [| n];
         [do 16 (destruct m as [| m];
                 [simpl; intros H; (reflexivity || discriminate H) |]); lia |]).
  lia.
Qed.

Lemma hex2_inj (v w : Z) :
  0 <= v < 256 -> 0 <= w < 256 -> hex2 v = hex2 w -> v = w.
Proof.
  intros Hv Hw H. unfold hex2 in H. injection H as H1 H2.
  apply hex_digit_inj in H1;
    [| split; [apply Z.div_pos; lia | apply Z.div_lt_upper_bound; lia]
     | split; [apply Z.div_pos; lia | apply Z.div_lt_upper_bound; lia]].
  apply hex_digit_inj in H2;
    [| apply Z.mod_pos_bound; lia | apply Z.mod_pos_bound; lia].
  rewrite (Z.div_mod v 16), (Z.div_mod w 16) by lia. rewrite H1, H2. reflexivity.
Qed.

Lemma hex_loop_ext (buf buf' : list byte) (len : Z) (fuel : nat) :
  forall i, 0 <= i ->
  (forall j, (Z.to_nat i <= j)%nat -> Z.of_nat j < Z.min len 32 ->
     rd buf j = rd buf' j) ->
  hex_loop fuel i buf len = hex_loop fuel i buf' len.
Proof.
  induction fuel as [| fuel IH]; intros i Hi H; cbn [hex_loop]; [reflexivity |].
  destruct ((i <? len) && (i <? 32)) eqn:Hc; [| reflexivity].
  apply andb_true_iff in Hc as [H1 H2].
  rewrite (H (Z.to_nat i)) by lia.
  rewrite (IH (i + 1)); [reflexivity | lia |].
  intros j Hj Hlt. apply H; lia.
Qed.

Lemma hex_loop_inj (buf buf' : list byte) (len : Z) (fuel : nat) :
  forall i, 0 <= i ->
  hex_loop fuel i buf len = hex_loop fuel i buf' len ->
  forall j, (Z.to_nat i <= j)%nat -> Z.of_nat j < Z.min len 32 ->
    (j < Z.to_nat i + fuel)%nat ->
    rd buf j = rd buf' j.
Proof.
  induction fuel as [| fuel IH]; intros i Hi H j Hj Hlt Hf; [lia |].
  cbn [hex_loop] in H.
  assert (((i <? len) && (i <? 32)) = true) as Hc
    by (apply andb_true_iff; lia).
  rewrite Hc in H. unfold hex2 in H. cbn [app] in H.
  injection H as H1 H2 H3.
  assert (Hrd : rd buf (Z.to_nat i) = rd buf' (Z.to_nat i)).
  { apply hex2_inj; try apply rd_range. unfold hex2. rewrite H1, H2. reflexivity. }
  destruct (Nat.eq_dec j (Z.to_nat i)) as [-> | Hne]; [exact Hrd |].
  apply (IH (i + 1)); try lia. exact H3.
Qed.

Lemma take_ext_rd (n : nat) :
  forall buf buf' : list byte,
  (n <= length buf)%nat -> (n <= length buf')%nat ->
  (forall j, (j < n)%nat -> rd buf j = rd buf' j) ->
  take n buf = take n buf'.
Proof.
  induction n as [| n IH]; intros buf buf' Hl Hl' H; [reflexivity |].
  destruct buf as [| b buf]; [simpl in Hl; lia |].
  destruct buf' as [| b' buf']; [simpl in Hl'; lia |].
  simpl in *. f_equal.
  - apply byte_val_inj. apply (H 0%nat). lia.
  - apply IH; try lia. intros j Hj. apply (H (S j)). lia.
Qed.

Lemma hex_loop_lengths (buf buf' : list byte) (len : Z) (fuel : nat) :
  forall i,
  length (hex_loop fuel i buf len) = length (hex_loop fuel i buf' len).
Proof.
  induction fuel as [| fuel IH]; intros i; cbn [hex_loop]; [reflexivity |].
  destruct ((i <? len) && (i <? 32)); [| reflexivity].
  unfold hex2. cbn [app length]. rewrite (IH (i + 1)). reflexivity.
Qed.

(** X13: the hex dump shows the first min(len, 32) bytes and nothing
    else.  [print_hex] reads no byte beyond them: two buffers that agree
    on them are printed alike.  And it shows them faithfully: when two
    buffers that hold at least that many bytes are printed alike, under
    the same prefix and length, they agree on those bytes. *)
Theorem print_hex_shows_the_bytes (prefix : string) (buf buf' : list byte)
    (len : Z) :
  (take (shown len) buf = take (shown len) buf' ->
   print_hex prefix buf len = print_hex prefix buf' len) /\
  ((shown len <= length buf)%nat -> (shown len <= length buf')%nat ->
   print_hex prefix buf len = print_hex prefix buf' len ->
   take (shown len) buf = take (shown len) buf').
Proof.
  unfold shown. split.
  - intros H. unfold print_hex.
    rewrite (hex_loop_ext buf buf' len 32 0); [reflexivity | lia |].
    intros j _ Hj.
    rewrite <- (rd_take buf (Z.to_nat (Z.min len 32)) j) by lia.
    rewrite <- (rd_take buf' (Z.to_nat (Z.min len 32)) j) by lia.
    rewrite H. reflexivity.
  - intros Hl Hl' H. unfold print_hex in H.
    do 4 apply app_inv_head in H.
    apply app_inj_1 in H; [| apply hex_loop_lengths]. destruct H as [H _].
    apply take_ext_rd; try assumption.
    intros j Hj. apply (hex_loop_inj buf buf' len 32 0); try lia. exact H.
Qed.

Lemma print_hex_shows_the_bytes_witness :
  take (shown 2) [x04; x0e; x01] = take (shown 2) [x04; x0e; xff] /\
  print_hex "RX<-chip" [x04; x0e; x01] 2 = print_hex "RX<-chip" [x04; x0e; xff] 2.
Proof.
  assert (H : take (shown 2) [x04; x0e; x01] = take (shown 2) [x04; x0e; xff])
    by reflexivity.
  split; [exact H |].
  exact (proj1 (print_hex_shows_the_bytes "RX<-chip" [x04; x0e; x01]
                  [x04; x0e; xff] 2) H).
Defined.

Example print_hex_event :
  print_hex "RX<-chip" event_frame 7 =
  list_ascii_of_string "RX<-chip (7 bytes): 04 0e 04 01 0c 20 00 " ++ ["010"%char].
Proof. vm_compute. reflexivity. Qed.

(** ** Setting non-blocking mode *)

Lemma lor_keeps (a b : Z) :
  Z.land (Z.lor a b) b = b /\ Z.land (Z.lor a b) a = a /\
  Z.ldiff (Z.lor a b) b = Z.ldiff a b.
Proof.
  repeat split; apply Z.bits_inj'; intros n Hn;
    rewrite ?Z.land_spec, ?Z.ldiff_spec, ?Z.lor_spec;
    destruct (Z.testbit a n), (Z.testbit b n); reflexivity.
Qed.

(** X14: [set_nonblocking] only ever adds O_NONBLOCK.  When F_GETFL
    fails it returns -1 without calling F_SETFL.  Otherwise it calls
    F_SETFL once, with a flag word that has every bit of O_NONBLOCK set
    and, apart from those, exactly the bits F_GETFL reported, and returns
    what that call returns; on a descriptor that is already non-blocking
    the word is the one F_GETFL reported. *)
Theorem set_nonblocking_adds_one_flag (o_nonblock getfl : Z) (setfl : Z -> Z) :
  (getfl < 0 -> set_nonblocking o_nonblock getfl setfl = (-1, [GetFl])) /\
  (0 <= getfl ->
   exists w,
     set_nonblocking o_nonblock getfl setfl = (setfl w, [GetFl; SetFl w]) /\
     Z.land w o_nonblock = o_nonblock /\
     Z.land w getfl = getfl /\
     Z.ldiff w o_nonblock = Z.ldiff getfl o_nonblock /\
     (Z.land getfl o_nonblock = o_nonblock -> w = getfl)).
Proof.
  unfold set_nonblocking. split.
  - intros H. assert ((getfl <? 0) = true) as -> by lia. reflexivity.
  - intros H. assert ((getfl <? 0) = false) as -> by lia.
    exists (Z.lor getfl o_nonblock).
    destruct (lor_keeps getfl o_nonblock) as (H1 & H2 & H3).
    repeat split; try assumption.
    intros Hset. apply Z.bits_inj'. intros n Hn.
    assert (Hb : Z.testbit o_nonblock n =
                 Z.testbit getfl n && Z.testbit o_nonblock n)
      by (rewrite <- Z.land_spec, Hset; reflexivity).
    rewrite Z.lor_spec, Hb.
    destruct (Z.testbit getfl n), (Z.testbit o_nonblock n); reflexivity.
Qed.

Lemma set_nonblocking_adds_one_flag_witness :
  0 <= 2 /\
  exists w,
    set_nonblocking 2048 2 (fun _ => 0) = (0, [GetFl; SetFl w]) /\
    Z.land w 2048 = 2048 /\ Z.land w 2 = 2.
Proof.
  assert (H : 0 <= 2) by lia. split; [exact H |].
  destruct (proj2 (set_nonblocking_adds_one_flag 2048 2 (fun _ => 0)) H)
    as (w & Hw & H1 & H2 & _).
  exists w. split; [exact Hw | split; assumption].
Defined.

